(** * Profiles function helpers and the self-refreshing in-memory store

    A shallow embedding of [profiles-functions.ts]: the hashing helpers
    ([hash], [int32Hash]) and the in-memory store ([saveLocalCache],
    [loadFromCache], [createInMemoryStore]) together with the properties
    checked against them. *)

From Stdlib Require Import ZArith List String Ascii Bool Lia Permutation Sorted.
Import ListNotations.

Local Open Scope Z_scope.

(** ** Hashing helpers *)

Module Hashing.

(** *** SHA-256 (FIPS 180-4) on 32-bit words held in [Z]

    [createHash("sha256")] belongs to the runtime; this is the
    reference algorithm its digest is compared with. *)

Definition w32 : Z := 4294967296.

Definition add32 (a b : Z) : Z := (a + b) mod w32.

Definition rotr (n x : Z) : Z :=
  Z.lor (Z.shiftr x n) ((Z.shiftl x (32 - n)) mod w32).

Definition not32 (x : Z) : Z := Z.lxor x 4294967295.

Definition Ch (x y z : Z) : Z := Z.lxor (Z.land x y) (Z.land (not32 x) z).
Definition Maj (x y z : Z) : Z :=
  Z.lxor (Z.lxor (Z.land x y) (Z.land x z)) (Z.land y z).
Definition bsig0 (x : Z) : Z := Z.lxor (Z.lxor (rotr 2 x) (rotr 13 x)) (rotr 22 x).
Definition bsig1 (x : Z) : Z := Z.lxor (Z.lxor (rotr 6 x) (rotr 11 x)) (rotr 25 x).
Definition ssig0 (x : Z) : Z := Z.lxor (Z.lxor (rotr 7 x) (rotr 18 x)) (Z.shiftr x 3).
Definition ssig1 (x : Z) : Z := Z.lxor (Z.lxor (rotr 17 x) (rotr 19 x)) (Z.shiftr x 10).

(** The constants are defined the way the standard defines them, from
    the first primes: the first 32 bits of the fractional part of a cube
    root (round constants) or of a square root (initial hash value). *)
Definition is_prime (n : Z) : bool :=
  forallb (fun d => negb (n mod d =? 0))
          (map Z.of_nat (seq 2 (Z.to_nat n - 2))).

(** The primes up to 311: there are 64 of them. *)
Definition first_primes : list Z :=
  filter is_prime (map Z.of_nat (seq 2 310)).

(** The integer cube root, found bit by bit from bit [k - 1] down. *)
Fixpoint cube_root_bits (k : nat) (n r : Z) : Z :=
  match k with
  | O => r
  | S k' =>
      let c := r + 2 ^ Z.of_nat k' in
      cube_root_bits k' n (if c * c * c <=? n then c else r)
  end.

Definition frac_cube_root (p : Z) : Z :=
  cube_root_bits 40 (p * 2 ^ 96) 0 mod w32.

Definition frac_square_root (p : Z) : Z :=
  Z.sqrt (p * 2 ^ 64) mod w32.

Definition K256 : list Z := Eval vm_compute in map frac_cube_root first_primes.

(** The eight working words. *)
Record Words8 : Type := mkWords8 {
  wa : Z; wb : Z; wc : Z; wd : Z; we : Z; wf : Z; wg : Z; wh : Z
}.

Definition H256_init : Words8 :=
  mkWords8 (frac_square_root 2) (frac_square_root 3) (frac_square_root 5)
           (frac_square_root 7) (frac_square_root 11) (frac_square_root 13)
           (frac_square_root 17) (frac_square_root 19).

(** Big-endian words of one 64-byte block. *)
Fixpoint be_words (n : nat) (bytes : list Z) : list Z :=
  match n with
  | O => []
  | S n' =>
      match bytes with
      | b0 :: b1 :: b2 :: b3 :: rest =>
          (b0 * 16777216 + b1 * 65536 + b2 * 256 + b3) :: be_words n' rest
      | _ => []
      end
  end.

(** Message schedule, kept newest-first: the head is W[t-1]. *)
Fixpoint extend_schedule (n : nat) (rev_w : list Z) : list Z :=
  match n with
  | O => rev_w
  | S n' =>
      let w := add32 (add32 (ssig1 (nth 1 rev_w 0)) (nth 6 rev_w 0))
                     (add32 (ssig0 (nth 14 rev_w 0)) (nth 15 rev_w 0)) in
      extend_schedule n' (w :: rev_w)
  end.

Definition schedule (block : list Z) : list Z :=
  rev (extend_schedule 48 (rev (be_words 16 block))).

Definition round (s : Words8) (kw : Z * Z) : Words8 :=
  let t1 := add32 (add32 (add32 (wh s) (bsig1 (we s)))
                         (add32 (Ch (we s) (wf s) (wg s)) (fst kw))) (snd kw) in
  let t2 := add32 (bsig0 (wa s)) (Maj (wa s) (wb s) (wc s)) in
  mkWords8 (add32 t1 t2) (wa s) (wb s) (wc s) (add32 (wd s) t1) (we s) (wf s) (wg s).

Definition compress (h : Words8) (block : list Z) : Words8 :=
  let s := fold_left round (combine K256 (schedule block)) h in
  mkWords8 (add32 (wa h) (wa s)) (add32 (wb h) (wb s))
           (add32 (wc h) (wc s)) (add32 (wd h) (wd s))
           (add32 (we h) (we s)) (add32 (wf h) (wf s))
           (add32 (wg h) (wg s)) (add32 (wh h) (wh s)).

Fixpoint be_bytes (n : nat) (x : Z) : list Z :=
  match n with
  | O => []
  | S n' => be_bytes n' (x / 256) ++ [x mod 256]
  end.

(** Padding: a one bit, zeros up to 56 mod 64, the bit length on 8 bytes. *)
Definition pad (msg : list Z) : list Z :=
  let len := Z.of_nat (List.length msg) in
  let zeros := Z.to_nat ((55 - len) mod 64) in
  msg ++ [128] ++ repeat 0 zeros ++ be_bytes 8 (8 * len).

Fixpoint process_blocks (n : nat) (h : Words8) (bytes : list Z) : Words8 :=
  match n with
  | O => h
  | S n' => process_blocks n' (compress h (firstn 64 bytes)) (skipn 64 bytes)
  end.

Definition sha256 (msg : list Z) : Words8 :=
  let padded := pad msg in
  process_blocks (List.length padded / 64)%nat H256_init padded.

(** A string is read as the bytes of its UTF-8 encoding, which is what
    [update(value)] feeds to the digest. *)
Definition bytes_of_string (s : string) : list Z :=
  map (fun c => Z.of_N (N_of_ascii c)) (list_ascii_of_string s).

(** *** Hexadecimal text *)

Definition hexchar (d : Z) : ascii :=
  match d with
  | 0 => "0" | 1 => "1" | 2 => "2" | 3 => "3" | 4 => "4" | 5 => "5"
  | 6 => "6" | 7 => "7" | 8 => "8" | 9 => "9" | 10 => "a" | 11 => "b"
  | 12 => "c" | 13 => "d" | 14 => "e" | _ => "f"
  end%char.

Definition nibble (k : Z) (w : Z) : Z := (w / 16 ^ k) mod 16.

Definition hex32 (w : Z) (tail : string) : string :=
  String (hexchar (nibble 7 w)) (String (hexchar (nibble 6 w))
  (String (hexchar (nibble 5 w)) (String (hexchar (nibble 4 w))
  (String (hexchar (nibble 3 w)) (String (hexchar (nibble 2 w))
  (String (hexchar (nibble 1 w)) (String (hexchar (nibble 0 w)) tail))))))).

Definition hex_of_words (h : Words8) : string :=
  hex32 (wa h) (hex32 (wb h) (hex32 (wc h) (hex32 (wd h)
  (hex32 (we h) (hex32 (wf h) (hex32 (wg h) (hex32 (wh h) EmptyString))))))).

Definition sha256_hex (value : string) : string :=
  hex_of_words (sha256 (bytes_of_string value)).

(** *** [parseInt(s, 16)] and the remainder operator

    A JavaScript number is an integer here, [None] standing for NaN; the
    integers that occur (below 2^32) are exact as doubles. *)

(** White space of one byte; the wider Unicode spaces do not occur in
    what is parsed here. *)
Definition is_white_space (c : ascii) : bool :=
  match N_of_ascii c with
  | 9%N | 10%N | 11%N | 12%N | 13%N | 32%N => true
  | _ => false
  end.

Fixpoint trim_start (s : string) : string :=
  match s with
  | String c r => if is_white_space c then trim_start r else s
  | EmptyString => s
  end.

Definition hex_digit (c : ascii) : option Z :=
  let n := Z.of_N (N_of_ascii c) in
  if (48 <=? n) && (n <=? 57) then Some (n - 48)
  else if (97 <=? n) && (n <=? 102) then Some (n - 87)
  else if (65 <=? n) && (n <=? 70) then Some (n - 55)
  else None.

Fixpoint parse_hex_digits (s : string) (acc : Z) : Z :=
  match s with
  | String c r =>
      match hex_digit c with
      | Some d => parse_hex_digits r (acc * 16 + d)
      | None => acc
      end
  | EmptyString => acc
  end.

(** An optional sign: whether it is a minus, and what follows it. *)
Definition strip_sign (s : string) : bool * string :=
  match s with
  | String "-"%char r => (true, r)
  | String "+"%char r => (false, r)
  | _ => (false, s)
  end.

Definition strip_0x (s : string) : string :=
  match s with
  | String "0"%char (String "x"%char r) => r
  | String "0"%char (String "X"%char r) => r
  | _ => s
  end.

Definition parseInt16 (s : string) : option Z :=
  let '(negative, body) := strip_sign (trim_start s) in
  let digits := strip_0x body in
  match digits with
  | String c _ =>
      match hex_digit c with
      | Some _ =>
          let v := parse_hex_digits digits 0 in
          Some (if negative then - v else v)
      | None => None
      end
  | EmptyString => None
  end.

(** [a % b]: the sign follows the dividend, NaN stays NaN. *)
Definition js_rem (a : option Z) (b : Z) : option Z :=
  match a with
  | Some n => if b =? 0 then None else Some (Z.rem n b)
  | None => None
  end.

(** *** The source's helpers *)

Definition profileIdHashColumn : string := "_profile_id_hash".
Definition profileIdColumn : string := "_profile_id".
Definition idHash32MaxValue : Z := 2147483647.

Section WithCrypto.

(** [createHash(algorithm).update(value).digest("hex")] of the runtime's
    crypto module. *)
Variable digest_hex : string -> string -> string.

Definition hash (algorithm value : string) : string :=
  digest_hex algorithm value.

Definition int32Hash (value : string) : option Z :=
  let h := hash "sha256" value in
  js_rem (parseInt16 (substring 0 8 h)) idHash32MaxValue.

End WithCrypto.

(** The runtime's digest, as far as this file needs it. *)
Definition node_digest_hex (algorithm value : string) : string :=
  sha256_hex value.

End Hashing.

(** ** The in-memory store *)

Module InMemStore.

(** *** Values, errors and completions *)

(** A value of the store's type parameter [T], or [undefined]. Objects
    are known by reference only: the store never looks inside them. *)
Inductive JsVal : Type :=
| VUndefined
| VNull
| VBool (b : bool)
| VNum (n : Z)
| VNaN
| VStr (s : string)
| VObj (ref : nat).

(** What [if (v)] tests. *)
Definition truthy (v : JsVal) : bool :=
  match v with
  | VUndefined | VNull | VNaN => false
  | VBool b => b
  | VNum n => negb (n =? 0)
  | VStr s => negb (String.eqb s "")
  | VObj _ => true
  end.

(** A thrown value or rejection reason: either raised by a collaborator
    (the fetch operation, the file system, a serializer) or an [Error]
    object that the store's own code builds with [new Error(message)]. *)
Inductive Thrown : Type :=
| External (message : string)
| StoreError (message : string).

Inductive Completion (A : Type) : Type :=
| Normal (a : A)
| Throws (e : Thrown).
Arguments Normal {A} a.
Arguments Throws {A} e.

(** Milliseconds since the epoch. *)
Definition Date : Type := Z.

(** *** The definition and its collaborators *)

(** [StoreDefinition] without its [refresh] member: the fetch operation
    is asynchronous and belongs to the environment, each of its
    settlements reaches the store as an event (see [Event]). *)
Record StoreDefinition : Type := {
  refreshIntervalMillis : Z;
  name : string;
  serializer : option (JsVal -> Completion string);
  deserializer : option (string -> Completion JsVal);
  localDir : option string
}.

(** What [definition.refresh] resolves with. *)
Inductive RefreshResult : Type :=
| Fresh (newLastModified : option Date) (store : JsVal)
| not_modified.

Inductive Outcome : Type :=
| Fulfilled (res : RefreshResult)
| Rejected (e : Thrown).

(** Library functions the source calls and that are not part of it. *)
Record Host : Type := {
  getErrorMessage : Thrown -> string;
  JSON_stringify : JsVal -> Completion string;
  JSON_parse : string -> Completion JsVal
}.

(** The synchronous file-system calls, as they answer at one moment. *)
Record Disk : Type := {
  mkdirSync : string -> Completion unit;
  readFileSync : string -> Completion string;
  statSync_mtime : string -> Completion Date
}.

(** What a callback sees of the outside when it runs. *)
Record World : Type := {
  now : Date;
  disk : Disk
}.

Definition path_join (dir file : string) : string :=
  (dir ++ "/" ++ file)%string.

Inductive Status : Type := ok | initializing | outdated | failed | stopped.

Definition Status_eqb (a b : Status) : bool :=
  match a, b with
  | ok, ok | initializing, initializing | outdated, outdated
  | failed, failed | stopped, stopped => true
  | _, _ => false
  end.

(** *** The store's variables and the runtime's view of it *)

Inductive PromiseState : Type :=
| Pending
| Resolved (v : JsVal)
| Rejected_with (e : Thrown).

(** Where the chain [definition.refresh().then(..).catch(..)] stands. *)
Inductive ColdLoad : Type :=
| FetchPending                (* the first fetch has not settled *)
| CatchQueued (e : Thrown)    (* a rejection is on its way to the catch callback *)
| ColdDone.                   (* the chain has run to its end, or was never built *)

Record Store : Type := mkStore {
  (* the closure's variables *)
  status : Status;
  instance : JsVal;
  lastRefresh : option Date;
  lastModified : option Date;
  stopping : bool;
  intervalToClear : bool;
  (* promises and timers *)
  instancePromise : PromiseState;
  coldLoad : ColdLoad;
  intervalRunning : bool;
  timeoutArmed : bool;
  inflight : nat;
  (* the argument of every call of [definition.refresh], oldest first *)
  fetchCalls : list (option Date)
}.

Definition set_status (v : Status) (s : Store) : Store :=
  mkStore v (instance s) (lastRefresh s) (lastModified s) (stopping s)
    (intervalToClear s) (instancePromise s) (coldLoad s) (intervalRunning s)
    (timeoutArmed s) (inflight s) (fetchCalls s).
Definition set_instance (v : JsVal) (s : Store) : Store :=
  mkStore (status s) v (lastRefresh s) (lastModified s) (stopping s)
    (intervalToClear s) (instancePromise s) (coldLoad s) (intervalRunning s)
    (timeoutArmed s) (inflight s) (fetchCalls s).
Definition set_lastRefresh (v : option Date) (s : Store) : Store :=
  mkStore (status s) (instance s) v (lastModified s) (stopping s)
    (intervalToClear s) (instancePromise s) (coldLoad s) (intervalRunning s)
    (timeoutArmed s) (inflight s) (fetchCalls s).
Definition set_lastModified (v : option Date) (s : Store) : Store :=
  mkStore (status s) (instance s) (lastRefresh s) v (stopping s)
    (intervalToClear s) (instancePromise s) (coldLoad s) (intervalRunning s)
    (timeoutArmed s) (inflight s) (fetchCalls s).
Definition set_stopping (v : bool) (s : Store) : Store :=
  mkStore (status s) (instance s) (lastRefresh s) (lastModified s) v
    (intervalToClear s) (instancePromise s) (coldLoad s) (intervalRunning s)
    (timeoutArmed s) (inflight s) (fetchCalls s).
Definition set_intervalToClear (v : bool) (s : Store) : Store :=
  mkStore (status s) (instance s) (lastRefresh s) (lastModified s) (stopping s)
    v (instancePromise s) (coldLoad s) (intervalRunning s)
    (timeoutArmed s) (inflight s) (fetchCalls s).
Definition set_instancePromise (v : PromiseState) (s : Store) : Store :=
  mkStore (status s) (instance s) (lastRefresh s) (lastModified s) (stopping s)
    (intervalToClear s) v (coldLoad s) (intervalRunning s)
    (timeoutArmed s) (inflight s) (fetchCalls s).
Definition set_coldLoad (v : ColdLoad) (s : Store) : Store :=
  mkStore (status s) (instance s) (lastRefresh s) (lastModified s) (stopping s)
    (intervalToClear s) (instancePromise s) v (intervalRunning s)
    (timeoutArmed s) (inflight s) (fetchCalls s).
Definition set_intervalRunning (v : bool) (s : Store) : Store :=
  mkStore (status s) (instance s) (lastRefresh s) (lastModified s) (stopping s)
    (intervalToClear s) (instancePromise s) (coldLoad s) v
    (timeoutArmed s) (inflight s) (fetchCalls s).
Definition set_timeoutArmed (v : bool) (s : Store) : Store :=
  mkStore (status s) (instance s) (lastRefresh s) (lastModified s) (stopping s)
    (intervalToClear s) (instancePromise s) (coldLoad s) (intervalRunning s)
    v (inflight s) (fetchCalls s).
Definition set_inflight (v : nat) (s : Store) : Store :=
  mkStore (status s) (instance s) (lastRefresh s) (lastModified s) (stopping s)
    (intervalToClear s) (instancePromise s) (coldLoad s) (intervalRunning s)
    (timeoutArmed s) v (fetchCalls s).
Definition set_fetchCalls (v : list (option Date)) (s : Store) : Store :=
  mkStore (status s) (instance s) (lastRefresh s) (lastModified s) (stopping s)
    (intervalToClear s) (instancePromise s) (coldLoad s) (intervalRunning s)
    (timeoutArmed s) (inflight s) v.

(** What reaches the store: the settlement of a fetch it started, a
    timer that fires, a callback of the promise chain, a call by a user. *)
Inductive Event : Type :=
| EvColdSettled (o : Outcome) (w : World)     (* first fetch settles, [then] callback *)
| EvCatch (w : World)                         (* the [catch] callback *)
| EvIntervalTick                              (* the [setInterval] callback *)
| EvTimeout                                   (* the loop's [setTimeout] callback *)
| EvRefreshSettled (o : Outcome) (w : World)  (* the fetch awaited in [refresh] settles *)
| EvStop                                      (* [stop()] *)
| EvGet.                                      (* [get()] *)

(** What [get()] hands back: a promise already resolved with the value,
    or the one promise made at construction. *)
Inductive GetResult : Type :=
| Immediate (v : JsVal)
| ColdPromise.

Record CachedInstance : Type := {
  updateDate : Date;
  cached_instance : JsVal
}.

Section Store.

Variable host : Host.
Variable definition : StoreDefinition.

(** [if (definition.localDir)]: a directory that is set and not empty. *)
Definition configured_localDir : option string :=
  match localDir definition with
  | Some dir => if String.eqb dir "" then None else Some dir
  | None => None
  end.

Definition cacheFile (dir : string) : string :=
  path_join dir (name definition ++ "-latest.json")%string.

Definition serialize (inst : JsVal) : Completion string :=
  match serializer definition with
  | Some ser => ser inst
  | None => JSON_stringify host inst
  end.

Definition deserialize (cached : string) : Completion JsVal :=
  match deserializer definition with
  | Some de => de cached
  | None => JSON_parse host cached
  end.

(** The result is the write handed to [fs.writeFile] (file and text), if
    any. The write itself is asynchronous and its callback only logs. *)
Definition saveLocalCache (d : Disk) (inst : JsVal)
  : Completion (option (string * string)) :=
  match configured_localDir with
  | Some dir =>
      match mkdirSync d dir with
      | Throws e => Throws e
      | Normal _ =>
          match serialize inst with
          | Throws e => Throws e
          | Normal serialized => Normal (Some (cacheFile dir, serialized))
          end
      end
  | None => Normal None
  end.

Definition loadFromCache (d : Disk) : option CachedInstance :=
  match configured_localDir with
  | Some dir =>
      match readFileSync d (cacheFile dir) with
      | Throws _ => None
      | Normal cached =>
          match statSync_mtime d (cacheFile dir) with
          | Throws _ => None
          | Normal mtime =>
              match deserialize cached with
              | Throws _ => None
              | Normal inst =>
                  Some {| updateDate := mtime; cached_instance := inst |}
              end
          end
      end
  | None => None
  end.

Definition interval_mode : bool := 0 <? refreshIntervalMillis definition.

(** [refresh] up to its [await]: the fetch is called with the marker. *)
Definition refresh_start (s : Store) : Store :=
  set_inflight (S (inflight s))
    (set_fetchCalls (fetchCalls s ++ [lastModified s]) s).

(** [refresh] from its [await] on. *)
Definition refresh_finish (o : Outcome) (w : World) (s : Store) : Store :=
  match o with
  | Fulfilled (Fresh lm store) =>
      match saveLocalCache (disk w) store with
      | Throws _ => set_status outdated s
      | Normal _ =>
          let s1 := match lm with
                    | Some _ => set_lastModified lm s
                    | None => s
                    end in
          set_lastRefresh (Some (now w))
            (set_status ok (set_instance store s1))
      end
  | Fulfilled not_modified =>
      set_lastRefresh (Some (now w)) (set_status ok s)
  | Rejected _ => set_status outdated s
  end.

Definition loop (s : Store) : Store :=
  if stopping s then s else set_timeoutArmed true s.

Definition scheduleStoreRefresh (s : Store) : Store :=
  if interval_mode
  then set_intervalRunning true (set_intervalToClear true s)
  else loop s.

(** A promise settles once; later calls of its functions do nothing. *)
Definition resolve (v : JsVal) (s : Store) : Store :=
  match instancePromise s with
  | Pending => set_instancePromise (Resolved v) s
  | _ => s
  end.

Definition reject (e : Thrown) (s : Store) : Store :=
  match instancePromise s with
  | Pending => set_instancePromise (Rejected_with e) s
  | _ => s
  end.

Definition not_modified_message : string :=
  "Not modified. (must never happen on first load)".

Definition init_failure_message (e : Thrown) : string :=
  ("Failed to initialize store " ++ name definition
     ++ ". Initial load failed with " ++ getErrorMessage host e
     ++ " and no local cache found")%string.

(** The [then] callback of the first fetch. *)
Definition cold_then (res : RefreshResult) (w : World) (s : Store) : Store :=
  match res with
  | not_modified =>
      set_coldLoad (CatchQueued (StoreError not_modified_message)) s
  | Fresh lm store =>
      let s1 := set_instance store (set_lastModified lm s) in
      match saveLocalCache (disk w) store with
      | Throws e => set_coldLoad (CatchQueued e) s1
      | Normal _ =>
          set_coldLoad ColdDone
            (resolve store
               (scheduleStoreRefresh
                  (set_lastRefresh (Some (now w)) (set_status ok s1))))
      end
  end.

(** The [catch] callback. *)
Definition cold_catch (e : Thrown) (w : World) (s : Store) : Store :=
  set_coldLoad ColdDone
    match loadFromCache (disk w) with
    | None =>
        reject (StoreError (init_failure_message e)) (set_status failed s)
    | Some cachedInstance =>
        resolve (cached_instance cachedInstance)
          (scheduleStoreRefresh
             (set_status outdated
                (set_lastRefresh (Some (updateDate cachedInstance))
                   (set_instance (cached_instance cachedInstance) s))))
    end.

Definition stop (s : Store) : Store :=
  let s1 := set_stopping true s in
  let s2 := if intervalToClear s1 then set_intervalRunning false s1 else s1 in
  set_status stopped s2.

Definition get (s : Store) : GetResult :=
  if truthy (instance s) then Immediate (instance s) else ColdPromise.

Definition getCurrent (s : Store) : JsVal := instance s.

(** The state in which the promise that [get] returned is, seen at [s]. *)
Definition settlement (r : GetResult) (s : Store) : PromiseState :=
  match r with
  | Immediate v => Resolved v
  | ColdPromise => instancePromise s
  end.

(** The store as [createInMemoryStore] returns it: the promise's executor
    has run and has called [definition.refresh()] without argument, and
    the call has returned its promise (for a call that throws see
    [createInMemoryStore_thrown]). *)
Definition createInMemoryStore : Store :=
  {| status := initializing;
     instance := VUndefined;
     lastRefresh := None;
     lastModified := None;
     stopping := false;
     intervalToClear := false;
     instancePromise := Pending;
     coldLoad := FetchPending;
     intervalRunning := false;
     timeoutArmed := false;
     inflight := O;
     fetchCalls := [None] |}.

(** The store as [createInMemoryStore] returns it when the call of
    [definition.refresh()] in the promise's executor throws instead of
    returning a promise: the executor's exception rejects the promise
    with what was thrown; [then] and [catch] were never reached, so
    there is no chain, and nothing else has been assigned. *)
Definition createInMemoryStore_thrown (e : Thrown) : Store :=
  {| status := initializing;
     instance := VUndefined;
     lastRefresh := None;
     lastModified := None;
     stopping := false;
     intervalToClear := false;
     instancePromise := Rejected_with e;
     coldLoad := ColdDone;
     intervalRunning := false;
     timeoutArmed := false;
     inflight := O;
     fetchCalls := [None] |}.

(** The two ways a store can start. *)
Definition initial (s : Store) : Prop :=
  s = createInMemoryStore \/ exists e, s = createInMemoryStore_thrown e.

(** One event; [None] when it cannot happen in [s]. *)
Definition step (s : Store) (ev : Event) : option Store :=
  match ev with
  | EvColdSettled o w =>
      match coldLoad s with
      | FetchPending =>
          match o with
          | Fulfilled res => Some (cold_then res w s)
          | Rejected e => Some (set_coldLoad (CatchQueued e) s)
          end
      | _ => None
      end
  | EvCatch w =>
      match coldLoad s with
      | CatchQueued e => Some (cold_catch e w s)
      | _ => None
      end
  | EvIntervalTick =>
      if intervalRunning s
      then Some (if stopping s then s else refresh_start s)
      else None
  | EvTimeout =>
      if timeoutArmed s
      then Some (refresh_start (set_timeoutArmed false s))
      else None
  | EvRefreshSettled o w =>
      match inflight s with
      | S n =>
          let s1 := refresh_finish o w (set_inflight n s) in
          Some (if interval_mode then s1 else loop s1)
      | O => None
      end
  | EvStop => Some (stop s)
  | EvGet => Some s
  end.

Fixpoint run (s : Store) (evs : list Event) : option Store :=
  match evs with
  | [] => Some s
  | ev :: rest =>
      match step s ev with
      | Some s' => run s' rest
      | None => None
      end
  end.

Definition reachable (s : Store) : Prop :=
  exists s0 evs, initial s0 /\ run s0 evs = Some s.

(** No timer, no refresh under way, no handle stored. *)
Definition unscheduled (s : Store) : Prop :=
  intervalRunning s = false /\ timeoutArmed s = false
  /\ inflight s = O /\ intervalToClear s = false.

(** What is still to come by itself: the cold load, an armed timeout,
    the refreshes under way. *)
Definition pending (s : Store) : nat :=
  (match coldLoad s with ColdDone => 0 | _ => 1 end
   + (if timeoutArmed s then 1 else 0) + inflight s)%nat.

(** Fetches started so far, plus the one an armed timeout will start. *)
Definition fetches_committed (s : Store) : nat :=
  (List.length (fetchCalls s) + (if timeoutArmed s then 1 else 0))%nat.

(** How the promise chain and the rest of the store go together. *)
Definition cold_inv (s : Store) : Prop :=
  match coldLoad s with
  | FetchPending =>
      instance s = VUndefined /\ instancePromise s = Pending
      /\ unscheduled s /\ fetchCalls s = [None]
      /\ (status s = initializing \/ status s = stopped)
  | CatchQueued _ =>
      instancePromise s = Pending
      /\ unscheduled s /\ fetchCalls s = [None]
      /\ (status s = initializing \/ status s = stopped)
  | ColdDone =>
      match instancePromise s with
      | Pending => False
      | Rejected_with _ =>
          unscheduled s /\ fetchCalls s = [None]
          /\ (status s = failed \/ status s = stopped
              \/ status s = initializing /\ instance s = VUndefined)
      | Resolved _ =>
          (exists later, fetchCalls s = None :: later)
          /\ status s <> failed /\ status s <> initializing
      end
  end.

(** The one promise is rejected and the chain has ended. *)
Definition dead (e : Thrown) (s : Store) : Prop :=
  cold_inv s /\ coldLoad s = ColdDone /\ instancePromise s = Rejected_with e.

(** [get] answers with a value at [s], for good: either the one promise
    is fulfilled, or the value held is truthy and nothing can replace it
    before the promise is settled. *)
Definition get_secured (s : Store) : Prop :=
  (exists v, instancePromise s = Resolved v)
  \/ (truthy (instance s) = true /\ unscheduled s
      /\ coldLoad s <> FetchPending).

(** One way of scheduling is in use, and the loop has at most one fetch
    armed or under way. *)
Definition mode_inv (s : Store) : Prop :=
  if interval_mode
  then timeoutArmed s = false
  else intervalRunning s = false /\ intervalToClear s = false
       /\ (inflight s + (if timeoutArmed s then 1 else 0) <= 1)%nat.

(** As long as the status is [initializing] no refresh time has been
    stamped. *)
Definition unloaded_inv (s : Store) : Prop :=
  status s = initializing -> lastRefresh s = None.

End Store.

End InMemStore.

(** ** The profiles function and its collections *)

Module Profiles.

Import Hashing InMemStore.

(** *** Values and objects *)

(** Values of events and documents. *)
#[warnings="-register-all"]
Inductive Json : Type :=
| JUndefined
| JNull
| JBool (b : bool)
| JNum (n : Z)
| JNaN
| JStr (s : string)
| JDate (t : Date)
| JArr (items : list Json)
| JObj (fields : list (string * Json)).

Definition json_truthy (v : Json) : bool :=
  match v with
  | JUndefined | JNull | JNaN => false
  | JBool b => b
  | JNum n => negb (n =? 0)
  | JStr s => negb (String.eqb s "")
  | JDate _ | JArr _ | JObj _ => true
  end.

(** An object: its own properties in insertion order. (The runtime
    enumerates property names that are array indices first, see
    [own_properties]; of events and documents only what each property
    holds is looked at, not the order.) *)
Definition JsObject : Type := list (string * Json).

Fixpoint obj_has (k : string) (o : JsObject) : bool :=
  match o with
  | [] => false
  | (k', _) :: rest => if String.eqb k k' then true else obj_has k rest
  end.

(** [o[k]], or [o.k]. *)
Fixpoint obj_get (k : string) (o : JsObject) : Json :=
  match o with
  | [] => JUndefined
  | (k', v) :: rest => if String.eqb k k' then v else obj_get k rest
  end.

(** [o[k] = v]. *)
Fixpoint obj_set (k : string) (v : Json) (o : JsObject) : JsObject :=
  match o with
  | [] => [(k, v)]
  | (k', v') :: rest =>
      if String.eqb k k' then (k', v) :: rest
      else (k', v') :: obj_set k v rest
  end.

(** [o[k] = v] on an object written [{}]: its prototype has a setter
    for [__proto__], and this setter does nothing with a value that is
    no object; so no property is made under that name. *)
Definition obj_assign (k : string) (v : Json) (o : JsObject) : JsObject :=
  if String.eqb k "__proto__" then o else obj_set k v o.

Definition decimal_digit (c : ascii) : option Z :=
  let n := Z.of_N (N_of_ascii c) in
  if (48 <=? n) && (n <=? 57) then Some (n - 48) else None.

Fixpoint decimal_value (s : string) (acc : Z) : option Z :=
  match s with
  | EmptyString => Some acc
  | String c rest =>
      match decimal_digit c with
      | Some d => decimal_value rest (acc * 10 + d)
      | None => None
      end
  end.

(** Is the property name an array index: the decimal spelling, without
    leading zero, of a number up to 2^32 - 2? *)
Definition array_index (k : string) : option Z :=
  match k with
  | EmptyString => None
  | String "0"%char EmptyString => Some 0
  | String "0"%char _ => None
  | _ =>
      match decimal_value k 0 with
      | Some n => if n <=? 4294967294 then Some n else None
      | None => None
      end
  end.

Definition is_array_index (kv : string * Json) : bool :=
  match array_index (fst kv) with
  | Some _ => true
  | None => false
  end.

Definition index_value (kv : string * Json) : Z :=
  match array_index (fst kv) with
  | Some n => n
  | None => 0
  end.

Fixpoint insert_by_index (kv : string * Json) (sorted : JsObject) : JsObject :=
  match sorted with
  | [] => [kv]
  | kv' :: rest =>
      if index_value kv <=? index_value kv' then kv :: sorted
      else kv' :: insert_by_index kv rest
  end.

Definition sort_by_index (o : JsObject) : JsObject :=
  fold_right insert_by_index [] o.

(** A name that is neither [__proto__] nor an array index. *)
Definition ordinary_name (k : string) : bool :=
  negb (String.eqb k "__proto__")
  && match array_index k with
     | Some _ => false
     | None => true
     end.

(** The order in which the properties of an object are enumerated (and
    sent to the database): first the array indices, ascending, then the
    other names in the order in which they were made. *)
Definition own_properties (o : JsObject) : JsObject :=
  sort_by_index (filter is_array_index o)
  ++ filter (fun kv => negb (is_array_index kv)) o.

(** [{ ...target, ...source }]: the properties of [source] are set on
    [target] one after the other. *)
Definition spread (target source : JsObject) : JsObject :=
  fold_left (fun o kv => obj_set (fst kv) (snd kv) o) source target.

(** A [Set] of strings. *)
Definition set_has (x : string) (s : list string) : bool :=
  existsb (String.eqb x) s.

Definition set_add (x : string) (s : list string) : list string :=
  if set_has x s then s else s ++ [x].

(** *** The configuration *)

Record ProfilesConfig : Type := {
  mongoUrl : option string;
  enableAnonymousProfiles : bool;
  profileWindowDays : Z;
  runPeriodSec : Z;
  eventsDatabase : string;
  eventsCollectionName : string;
  traitsCollectionName : string
}.

Definition with_default {A : Type} (d : A) (o : option A) : A :=
  match o with
  | Some a => a
  | None => d
  end.

(** What the schema library throws when the input does not fit. (Which
    issues the error lists is not looked at.) *)
Definition zod_error : Thrown := External "ZodError".

(** [z.string().optional()]. *)
Definition optional_string (v : Json) : Completion (option string) :=
  match v with
  | JUndefined => Normal None
  | JStr s => Normal (Some s)
  | _ => Throws zod_error
  end.

(** [z.string().optional().default(d)]. *)
Definition string_or (d : string) (v : Json) : Completion string :=
  match v with
  | JUndefined => Normal d
  | JStr s => Normal s
  | _ => Throws zod_error
  end.

(** [z.boolean().optional().default(d)]. *)
Definition boolean_or (d : bool) (v : Json) : Completion bool :=
  match v with
  | JUndefined => Normal d
  | JBool b => Normal b
  | _ => Throws zod_error
  end.

(** [z.number().optional().default(d)]; NaN is no number for the schema.
    (Numbers are integers here.) *)
Definition number_or (d : Z) (v : Json) : Completion Z :=
  match v with
  | JUndefined => Normal d
  | JNum n => Normal n
  | _ => Throws zod_error
  end.

(** [ProfilesConfig.parse]: the input has to be an object, every
    property of the schema has to be absent or of its type; properties
    that the schema does not name are dropped. *)
Definition ProfilesConfig_parse (input : Json) : Completion ProfilesConfig :=
  match input with
  | JObj o =>
      match optional_string (obj_get "mongoUrl" o),
            boolean_or false (obj_get "enableAnonymousProfiles" o),
            number_or 365 (obj_get "profileWindowDays" o),
            number_or 60 (obj_get "runPeriodSec" o),
            string_or "profiles" (obj_get "eventsDatabase" o),
            string_or "profiles-raw" (obj_get "eventsCollectionName" o),
            string_or "profiles-traits" (obj_get "traitsCollectionName" o)
      with
      | Normal url, Normal anonymous, Normal window, Normal period,
        Normal database, Normal events, Normal traits =>
          Normal {| mongoUrl := url;
                    enableAnonymousProfiles := anonymous;
                    profileWindowDays := window;
                    runPeriodSec := period;
                    eventsDatabase := database;
                    eventsCollectionName := events;
                    traitsCollectionName := traits |}
      | _, _, _, _, _, _, _ => Throws zod_error
      end
  | _ => Throws zod_error
  end.

(** *** The database *)

(** What is sent to the database, with the arguments that vary; the
    options the source passes are the same in every call. *)
Inductive Command : Type :=
| WaitInit (singleton : option string)
| CollStats (db coll : string)
| CreateCollection (db coll : string) (expireAfterSeconds : Z)
| CreateIndex (db coll : string) (index : JsObject) (unique : bool)
| FindOneAndUpdate (db coll : string) (userId anonymousId traits : Json) (d : Date)
| InsertOne (db coll : string) (doc : JsObject).

(** How the database answers. Each field stands for the promise of one
    call; getting at the database and the collection, and building the
    cursor of the statistics query ([mongo.db], [collection],
    [aggregate]), are taken not to throw. *)
Record Mongo : Type := {
  collStats : string -> string -> Completion Json;
  createCollection : string -> string -> Z -> Completion unit;
  createIndex : string -> string -> JsObject -> bool -> Completion unit;
  findOneAndUpdate :
    string -> string -> Json -> Json -> Json -> Date -> Completion Json;
  insertOne : string -> string -> JsObject -> Completion bool
}.

Inductive LogEntry : Type :=
| LogNoUserId                (* debug: No userId found. Skipping *)
| LogMerged (traits : Json)  (* info: Merged profile *)
| LogInsertFailed            (* error: Failed to insert to MongoDB *)
| LogInserted.               (* debug: Inserted to MongoDB *)

(** How a call ends: its completion, what it sent, the set of created
    collections after it, what it logged. *)
Record Ran : Type := ran {
  outcome : Completion unit;
  commands : list Command;
  created_after : list string;
  logs : list LogEntry
}.

Record Env : Type := {
  mongo : Mongo;
  waitInit : option string -> Completion unit;
  today : Date
}.

Record Context : Type := {
  props : Json;
  connection_id : option string
}.

Section Functions.

(** [createHash(algorithm).update(value).digest("hex")]. *)
Variable digest_hex : string -> string -> string.

(** [`${e}`]: the text of a thrown value. *)
Variable describe : Thrown -> string.

(** [const index = {}; indexFields.forEach(field => { index[field] = 1 })],
    as the properties of [index] in the order in which they are
    enumerated. *)
Definition index_of (indexFields : list string) : JsObject :=
  own_properties
    (fold_left (fun index field => obj_assign field (JNum 1) index)
               indexFields []).

Definition create_failure (collectionName : string) (err : Thrown) : Thrown :=
  StoreError
    ("Failed to create collection " ++ collectionName ++ ": " ++ describe err).

(** [created] is [MongoCreatedCollections] when the call starts. *)
Definition pbEnsureMongoCollection
    (created : list string) (m : Mongo)
    (databaseName collectionName : string) (ttlDays : Z)
    (indexFields : list string) (unique : option bool) : Ran :=
  if set_has collectionName created then ran (Normal tt) [] created []
  else
    let asked := [CollStats databaseName collectionName] in
    let collStatus :=
      match collStats m databaseName collectionName with
      | Normal doc => doc
      | Throws _ => JUndefined
      end in
    if json_truthy collStatus
    then ran (Normal tt) asked (set_add collectionName created) []
    else
      let expire := 60 * 60 * 24 * ttlDays in
      let made := asked ++ [CreateCollection databaseName collectionName expire] in
      match createCollection m databaseName collectionName expire with
      | Throws err => ran (Throws (create_failure collectionName err)) made created []
      | Normal _ =>
          match indexFields with
          | [] => ran (Normal tt) made (set_add collectionName created) []
          | _ :: _ =>
              let index := index_of indexFields in
              let u := match unique with Some true => true | _ => false end in
              let indexed :=
                made ++ [CreateIndex databaseName collectionName index u] in
              match createIndex m databaseName collectionName index u with
              | Throws err =>
                  ran (Throws (create_failure collectionName err)) indexed created []
              | Normal _ =>
                  ran (Normal tt) indexed (set_add collectionName created) []
              end
          end
      end.

(** [int32Hash(userId)]: the digest takes a string (or binary data, which
    these values do not have) and throws on anything else. *)
Definition int32Hash_of (v : Json) : Completion Json :=
  match v with
  | JStr s =>
      Normal (match int32Hash digest_hex s with
              | Some n => JNum n
              | None => JNaN
              end)
  | _ => Throws (External "TypeError: The data argument must be of type string")
  end.

(** [event.type === "identify"]. *)
Definition is_identify (event : JsObject) : bool :=
  match obj_get "type" event with
  | JStr t => String.eqb t "identify"
  | _ => false
  end.

(** The name under which the client is shared, [None] for the default
    client. (What the factory of a new client logs is the library's
    business and is not part of [logs].) *)
Definition singleton_key (ctx : Context) (config : ProfilesConfig)
  : option string :=
  match mongoUrl config with
  | Some url =>
      if String.eqb url "" then None
      else Some ("profiles-mongodb-"
                   ++ with_default "undefined" (connection_id ctx)
                   ++ "-" ++ hash digest_hex "md5" url)%string
  | None => None
  end.

Definition send_failure (e : Thrown) : Thrown :=
  StoreError ("Error while sending event to MongoDB: " ++ describe e).

(** The body of the [try] block, with what it throws as it is thrown. *)
Definition send (created : list string) (env : Env) (ctx : Context)
    (config : ProfilesConfig) (event : JsObject) (userId : Json) : Ran :=
  let key := singleton_key ctx config in
  let c0 := [WaitInit key] in
  match waitInit env key with
  | Throws e => ran (Throws e) c0 created []
  | Normal _ =>
      let r1 :=
        pbEnsureMongoCollection created (mongo env) (eventsDatabase config)
          (eventsCollectionName config) (profileWindowDays config)
          [profileIdHashColumn; profileIdColumn; "type"%string] None in
      let c1 := c0 ++ commands r1 in
      match outcome r1 with
      | Throws e => ran (Throws e) c1 (created_after r1) []
      | Normal _ =>
          let r2 :=
            pbEnsureMongoCollection (created_after r1) (mongo env)
              (eventsDatabase config) (traitsCollectionName config)
              (profileWindowDays config) [profileIdColumn] (Some true) in
          let c2 := c1 ++ commands r2 in
          let set2 := created_after r2 in
          match outcome r2 with
          | Throws e => ran (Throws e) c2 set2 []
          | Normal _ =>
              let upsert :=
                FindOneAndUpdate (eventsDatabase config)
                  (traitsCollectionName config) userId
                  (obj_get "anonymousId" event) (obj_get "traits" event)
                  (today env) in
              let merged :=
                if is_identify event
                then
                  match findOneAndUpdate (mongo env) (eventsDatabase config)
                          (traitsCollectionName config) userId
                          (obj_get "anonymousId" event)
                          (obj_get "traits" event) (today env) with
                  | Throws e => inl e
                  | Normal traits => inr ([upsert], [LogMerged traits])
                  end
                else inr ([], []) in
              match merged with
              | inl e => ran (Throws e) (c2 ++ [upsert]) set2 []
              | inr (c3, l3) =>
                  match int32Hash_of userId with
                  | Throws e => ran (Throws e) (c2 ++ c3) set2 l3
                  | Normal h =>
                      let doc :=
                        spread [(profileIdHashColumn, h); (profileIdColumn, userId)]
                               event in
                      let c4 :=
                        c2 ++ c3
                        ++ [InsertOne (eventsDatabase config)
                              (eventsCollectionName config) doc] in
                      match insertOne (mongo env) (eventsDatabase config)
                              (eventsCollectionName config) doc with
                      | Throws e => ran (Throws e) c4 set2 l3
                      | Normal acknowledged =>
                          ran (Normal tt) c4 set2
                            (l3 ++ [if acknowledged
                                    then LogInserted else LogInsertFailed])
                      end
                  end
              end
          end
      end
  end.

(** [ctx.props || {}]. *)
Definition props_or_empty (ctx : Context) : Json :=
  if json_truthy (props ctx) then props ctx else JObj [].

(** The function from its second line on, with the configuration that
    was parsed. *)
Definition handle (config : ProfilesConfig) (created : list string)
    (env : Env) (event : JsObject) (ctx : Context) : Ran :=
  let userId := obj_get "userId" event in
  if negb (json_truthy userId)
  then ran (Normal tt) [] created [LogNoUserId]
  else
    let r := send created env ctx config event userId in
    match outcome r with
    | Throws e =>
        ran (Throws (send_failure e)) (commands r) (created_after r) (logs r)
    | Normal _ => r
    end.

(** The configuration is parsed first, outside of the [try]: what the
    parser throws is what the caller gets. *)
Definition ProfilesFunction (created : list string) (env : Env)
    (event : JsObject) (ctx : Context) : Ran :=
  match ProfilesConfig_parse (props_or_empty ctx) with
  | Throws e => ran (Throws e) [] created []
  | Normal config => handle config created env event ctx
  end.

End Functions.

(** Does the command go to the database itself? *)
Definition is_query (c : Command) : bool :=
  match c with
  | WaitInit _ => false
  | _ => true
  end.

Definition is_insert (c : Command) : bool :=
  match c with
  | InsertOne _ _ _ => true
  | _ => false
  end.

Definition is_upsert (c : Command) : bool :=
  match c with
  | FindOneAndUpdate _ _ _ _ _ _ => true
  | _ => false
  end.

Definition is_provisioning (c : Command) : bool :=
  match c with
  | CollStats _ _ | CreateCollection _ _ _ | CreateIndex _ _ _ _ => true
  | _ => false
  end.

End Profiles.

(** ** Collaborators and scenarios used by the examples *)

Import Hashing InMemStore.

Definition message_of (e : Thrown) : string :=
  match e with
  | External m => m
  | StoreError m => m
  end.

(** A host whose JSON covers the few values the scenarios store. *)
Definition small_host : Host :=
  {| getErrorMessage := message_of;
     JSON_stringify := fun v =>
       match v with
       | VNull => Normal "null"%string
       | VBool true => Normal "true"%string
       | VBool false => Normal "false"%string
       | VNum 0 => Normal "0"%string
       | VNum 7 => Normal "7"%string
       | _ => Throws (External "TypeError: value is not serializable")
       end;
     JSON_parse := fun text =>
       if String.eqb text "null" then Normal VNull
       else if String.eqb text "true" then Normal (VBool true)
       else if String.eqb text "false" then Normal (VBool false)
       else if String.eqb text "0" then Normal (VNum 0)
       else if String.eqb text "7" then Normal (VNum 7)
       else Throws (External "SyntaxError: unexpected token") |}.

(** A writable directory without snapshot. *)
Definition empty_disk : Disk :=
  {| mkdirSync := fun _ => Normal tt;
     readFileSync := fun _ => Throws (External "ENOENT: no such file or directory");
     statSync_mtime := fun _ => Throws (External "ENOENT: no such file or directory") |}.

(** A read-only file system without snapshot. *)
Definition readonly_disk : Disk :=
  {| mkdirSync := fun _ => Throws (External "EROFS: read-only file system");
     readFileSync := fun _ => Throws (External "ENOENT: no such file or directory");
     statSync_mtime := fun _ => Throws (External "ENOENT: no such file or directory") |}.

(** A snapshot with the given text, last written at [mtime]. *)
Definition snapshot_disk (text : string) (mtime : Date) : Disk :=
  {| mkdirSync := fun _ => Normal tt;
     readFileSync := fun _ => Normal text;
     statSync_mtime := fun _ => Normal mtime |}.

Definition at_time (t : Date) (d : Disk) : World := {| now := t; disk := d |}.

(** Refresh every second, cache under [/var/cache]. *)
Definition interval_def : StoreDefinition :=
  {| refreshIntervalMillis := 1000;
     name := "profiles";
     serializer := None;
     deserializer := None;
     localDir := Some "/var/cache"%string |}.

(** Refresh continuously, cache under [/var/cache]. *)
Definition loop_def : StoreDefinition :=
  {| refreshIntervalMillis := 0;
     name := "profiles";
     serializer := None;
     deserializer := None;
     localDir := Some "/var/cache"%string |}.

Definition connection_refused : Thrown := External "ECONNREFUSED".

(** The first fetch succeeds with the number 0 on a read-only file system
    that holds no snapshot. *)
Definition zero_on_readonly_disk : list Event :=
  [ EvColdSettled (Fulfilled (Fresh None (VNum 0))) (at_time 100 readonly_disk);
    EvCatch (at_time 100 readonly_disk) ].

(** The first fetch fails and there is no snapshot. *)
Definition cold_failure : list Event :=
  [ EvColdSettled (Rejected connection_refused) (at_time 100 empty_disk);
    EvCatch (at_time 100 empty_disk) ].

(** The first fetch fails and a snapshot holding 7 was written at time 40. *)
Definition cold_fallback : list Event :=
  [ EvColdSettled (Rejected connection_refused) (at_time 100 empty_disk);
    EvCatch (at_time 100 (snapshot_disk "7" 40)) ].

(** The first fetch succeeds with 7, marked 50. *)
Definition cold_success : list Event :=
  [ EvColdSettled (Fulfilled (Fresh (Some 50) (VNum 7))) (at_time 100 empty_disk) ].

(** After a good start a refresh is under way. *)
Definition refresh_started : list Event :=
  cold_success ++ [ EvIntervalTick ].

(** The refresh fetches [true], but by then the file system has become
    read-only. *)
Definition fresh_on_readonly_disk : Event :=
  EvRefreshSettled (Fulfilled (Fresh (Some 60) (VBool true)))
    (at_time 1100 readonly_disk).

(** A refresh is started, then [stop()] is called before it settles. *)
Definition stop_during_refresh : list Event :=
  cold_success ++ [ EvIntervalTick; EvStop ].

(** The refresh that was under way at [stop()] settles with [true]. *)
Definition late_settlement : list Event :=
  [ EvRefreshSettled (Fulfilled (Fresh (Some 60) (VBool true)))
      (at_time 1100 empty_disk) ].

(** The refresh brings the number 0. *)
Definition fresh_zero : Event :=
  EvRefreshSettled (Fulfilled (Fresh (Some 60) (VNum 0)))
    (at_time 1100 empty_disk).

(** The store of [interval_def] after [cold_success]. *)
Definition started_store : Store :=
  {| status := ok;
     instance := VNum 7;
     lastRefresh := Some 100;
     lastModified := Some 50;
     stopping := false;
     intervalToClear := true;
     instancePromise := Resolved (VNum 7);
     coldLoad := ColdDone;
     intervalRunning := true;
     timeoutArmed := false;
     inflight := 0;
     fetchCalls := [None] |}.

(** The store of [interval_def] after [refresh_started]. *)
Definition refreshing_store : Store :=
  {| status := ok;
     instance := VNum 7;
     lastRefresh := Some 100;
     lastModified := Some 50;
     stopping := false;
     intervalToClear := true;
     instancePromise := Resolved (VNum 7);
     coldLoad := ColdDone;
     intervalRunning := true;
     timeoutArmed := false;
     inflight := 1;
     fetchCalls := [None; Some 50] |}.

Definition cold_failure_error : Thrown :=
  StoreError
    "Failed to initialize store profiles. Initial load failed with ECONNREFUSED and no local cache found".

(** The store of [interval_def] after [cold_failure]. *)
Definition failed_store : Store :=
  {| status := failed;
     instance := VUndefined;
     lastRefresh := None;
     lastModified := None;
     stopping := false;
     intervalToClear := false;
     instancePromise := Rejected_with cold_failure_error;
     coldLoad := ColdDone;
     intervalRunning := false;
     timeoutArmed := false;
     inflight := 0;
     fetchCalls := [None] |}.

(** *** Scenarios of the profiles function *)

Definition describe_error (e : Thrown) : string :=
  ("Error: " ++ message_of e)%string.

(** A database without collections that does what it is asked; the
    insert is acknowledged or not as [acknowledged] says. *)
Definition empty_mongo (acknowledged : bool) : Profiles.Mongo :=
  {| Profiles.collStats := fun _ _ => Throws (External "ns does not exist");
     Profiles.createCollection := fun _ _ _ => Normal tt;
     Profiles.createIndex := fun _ _ _ _ => Normal tt;
     Profiles.findOneAndUpdate := fun _ _ userId _ traits _ =>
       Normal (Profiles.JObj [("userId"%string, userId);
                              ("traits"%string, traits)]);
     Profiles.insertOne := fun _ _ _ => Normal acknowledged |}.

(** A database in which every collection exists already. *)
Definition provisioned_mongo : Profiles.Mongo :=
  {| Profiles.collStats := fun _ _ =>
       Normal (Profiles.JObj [("count"%string, Profiles.JNum 3)]);
     Profiles.createCollection := fun _ _ _ =>
       Throws (External "collection already exists");
     Profiles.createIndex := fun _ _ _ _ => Normal tt;
     Profiles.findOneAndUpdate := fun _ _ _ _ _ _ => Normal Profiles.JNull;
     Profiles.insertOne := fun _ _ _ => Normal true |}.

(** A database that refuses to create collections. *)
Definition refusing_mongo : Profiles.Mongo :=
  {| Profiles.collStats := fun _ _ => Normal Profiles.JNull;
     Profiles.createCollection := fun _ _ _ =>
       Throws (External "not authorized");
     Profiles.createIndex := fun _ _ _ _ => Normal tt;
     Profiles.findOneAndUpdate := fun _ _ _ _ _ _ => Normal Profiles.JNull;
     Profiles.insertOne := fun _ _ _ => Normal true |}.

Definition env_of (m : Profiles.Mongo) : Profiles.Env :=
  {| Profiles.mongo := m;
     Profiles.waitInit := fun _ => Normal tt;
     Profiles.today := 1000 |}.

Definition default_ctx : Profiles.Context :=
  {| Profiles.props := Profiles.JUndefined;
     Profiles.connection_id := Some "c1"%string |}.

(** What is parsed from no properties at all. *)
Definition default_config : Profiles.ProfilesConfig :=
  {| Profiles.mongoUrl := None;
     Profiles.enableAnonymousProfiles := false;
     Profiles.profileWindowDays := 365;
     Profiles.runPeriodSec := 60;
     Profiles.eventsDatabase := "profiles";
     Profiles.eventsCollectionName := "profiles-raw";
     Profiles.traitsCollectionName := "profiles-traits" |}.

(** Properties in which the lifetime is a string. *)
Definition ill_typed_ctx : Profiles.Context :=
  {| Profiles.props :=
       Profiles.JObj [("profileWindowDays"%string, Profiles.JStr "365")];
     Profiles.connection_id := Some "c1"%string |}.

Definition identify_event : Profiles.JsObject :=
  [ ("type"%string, Profiles.JStr "identify");
    ("userId"%string, Profiles.JStr "u1");
    ("anonymousId"%string, Profiles.JStr "a1");
    ("traits"%string,
     Profiles.JObj [("plan"%string, Profiles.JStr "pro")]) ].

Definition track_event : Profiles.JsObject :=
  [ ("type"%string, Profiles.JStr "track");
    ("userId"%string, Profiles.JStr "u1");
    ("event"%string, Profiles.JStr "click") ].

(** An event that brings its own profile identifier. *)
Definition overriding_event : Profiles.JsObject :=
  [ ("type"%string, Profiles.JStr "track");
    ("userId"%string, Profiles.JStr "u1");
    ("_profile_id"%string, Profiles.JStr "someone-else") ].

Definition anonymous_event : Profiles.JsObject :=
  [ ("type"%string, Profiles.JStr "page");
    ("anonymousId"%string, Profiles.JStr "a1") ].

(** What [int32Hash] gives for the user of the events above. *)
Definition hash_of_u1 : Profiles.Json :=
  match int32Hash node_digest_hex "u1" with
  | Some n => Profiles.JNum n
  | None => Profiles.JNaN
  end.

(** The store of [interval_def] with two refreshes under way. *)
Definition overlapping_store : Store :=
  {| status := ok;
     instance := VNum 7;
     lastRefresh := Some 100;
     lastModified := Some 50;
     stopping := false;
     intervalToClear := true;
     instancePromise := Resolved (VNum 7);
     coldLoad := ColdDone;
     intervalRunning := true;
     timeoutArmed := false;
     inflight := 2;
     fetchCalls := [None; Some 50; Some 50] |}.

(** Like [interval_def] but without cache directory. *)
Definition uncached_def : StoreDefinition :=
  {| refreshIntervalMillis := 1000;
     name := "profiles";
     serializer := None;
     deserializer := None;
     localDir := Some ""%string |}.

(** ** Facts about the hashing helpers *)

Section HashingFacts.

Example sha256_hex_abc :
  sha256_hex "abc"
  = "ba7816bf8f01cfea414140de5dae2223b00361a396177a9cb410ff61f20015ad"%string.
Proof. vm_compute. reflexivity. Qed.

Example sha256_hex_empty :
  sha256_hex ""
  = "e3b0c44298fc1c149afbf4c8996fb92427ae41e4649b934ca495991b7852b855"%string.
Proof. vm_compute. reflexivity. Qed.

Example sha256_hex_two_blocks :
  sha256_hex "abcdbcdecdefdefgefghfghighijhijkijkljklmklmnlmnomnopnopq"
  = "248d6a61d20638b8e5c026930c3e6039a33ce45964ff2167f6ecedd419db06c1"%string.
Proof. vm_compute. reflexivity. Qed.

Example K256_ends :
  List.length K256 = 64%nat
  /\ nth 0 K256 0 = 0x428a2f98 /\ nth 63 K256 0 = 0xc67178f2
  /\ wa H256_init = 0x6a09e667 /\ wh H256_init = 0x5be0cd19.
Proof. vm_compute. repeat split. Qed.

Example parseInt16_samples :
  parseInt16 "ff" = Some 255 /\ parseInt16 "  -0x1F" = Some (-31)
  /\ parseInt16 "12xyz" = Some 18 /\ parseInt16 "0x" = None
  /\ parseInt16 "zz" = None /\ parseInt16 "" = None.
Proof. repeat split. Qed.

Example int32Hash_abc : int32Hash node_digest_hex "abc" = Some 980948672.
Proof. vm_compute. reflexivity. Qed.

Ltac nibble_cases d H :=
  assert (d = 0 \/ d = 1 \/ d = 2 \/ d = 3 \/ d = 4 \/ d = 5 \/ d = 6
          \/ d = 7 \/ d = 8 \/ d = 9 \/ d = 10 \/ d = 11 \/ d = 12
          \/ d = 13 \/ d = 14 \/ d = 15) as H by lia.

Lemma hex_digit_hexchar (d : Z) :
  0 <= d < 16 -> hex_digit (hexchar d) = Some d.
Proof.
  intros Hd. nibble_cases d Hc.
  repeat (destruct Hc as [Hc | Hc]; [subst d; reflexivity |]).
  subst d; reflexivity.
Qed.

Lemma parse_hex_digits_hexchar (d acc : Z) (r : string) :
  0 <= d < 16 ->
  parse_hex_digits (String (hexchar d) r) acc
  = parse_hex_digits r (acc * 16 + d).
Proof.
  intros Hd. cbn [parse_hex_digits]. now rewrite hex_digit_hexchar.
Qed.

(** Nothing is skipped in front of two hexadecimal digits: no white
    space, no sign, no [0x]. *)
Lemma parseInt16_two_digits (a b : Z) (r : string) :
  0 <= a < 16 -> 0 <= b < 16 ->
  parseInt16 (String (hexchar a) (String (hexchar b) r))
  = Some (parse_hex_digits r (a * 16 + b)).
Proof.
  intros Ha Hb. nibble_cases a Hca. nibble_cases b Hcb.
  repeat (destruct Hca as [Hca | Hca]);
    repeat (destruct Hcb as [Hcb | Hcb]); subst a b; reflexivity.
Qed.

Lemma nibble_range (k w : Z) : 0 <= nibble k w < 16.
Proof. unfold nibble. apply Z.mod_pos_bound. lia. Qed.

Lemma nibbles_sum (w : Z) :
  0 <= w < w32 ->
  ((((((nibble 7 w * 16 + nibble 6 w) * 16 + nibble 5 w) * 16
       + nibble 4 w) * 16 + nibble 3 w) * 16 + nibble 2 w) * 16
     + nibble 1 w) * 16 + nibble 0 w = w.
Proof.
  unfold nibble, w32. intros Hw.
  change (16 ^ 7) with 268435456. change (16 ^ 6) with 16777216.
  change (16 ^ 5) with 1048576. change (16 ^ 4) with 65536.
  change (16 ^ 3) with 4096. change (16 ^ 2) with 256.
  change (16 ^ 1) with 16. change (16 ^ 0) with 1.
  Z.div_mod_to_equations. lia.
Qed.

Lemma parseInt16_hex32 (w : Z) :
  0 <= w < w32 -> parseInt16 (hex32 w EmptyString) = Some w.
Proof.
  intros Hw. unfold hex32.
  rewrite parseInt16_two_digits by apply nibble_range.
  rewrite !parse_hex_digits_hexchar by apply nibble_range.
  cbn [parse_hex_digits]. f_equal. apply nibbles_sum, Hw.
Qed.

Lemma substring_hex32 (w : Z) (tail : string) :
  substring 0 8 (hex32 w tail) = hex32 w EmptyString.
Proof. destruct tail; reflexivity. Qed.

Lemma add32_range (a b : Z) : 0 <= add32 a b < w32.
Proof. unfold add32. apply Z.mod_pos_bound. reflexivity. Qed.

Lemma process_blocks_wa_range (n : nat) :
  forall h bytes,
    0 <= wa h < w32 -> 0 <= wa (process_blocks n h bytes) < w32.
Proof.
  induction n as [| n IH]; intros h bytes Hh; cbn [process_blocks].
  - exact Hh.
  - apply IH. unfold compress. cbn [wa]. apply add32_range.
Qed.

Lemma sha256_wa_range (msg : list Z) : 0 <= wa (sha256 msg) < w32.
Proof.
  unfold sha256. apply process_blocks_wa_range.
  unfold H256_init, frac_square_root. cbn [wa].
  apply Z.mod_pos_bound. reflexivity.
Qed.

Lemma parseInt16_sha256_prefix (value : string) :
  parseInt16 (substring 0 8 (sha256_hex value))
  = Some (wa (sha256 (bytes_of_string value))).
Proof.
  unfold sha256_hex, hex_of_words. rewrite substring_hex32.
  apply parseInt16_hex32, sha256_wa_range.
Qed.

End HashingFacts.

(** C10. For every string, [int32Hash] is a number, not negative and
    strictly below [idHash32MaxValue] = 2147483647, and equal inputs give
    equal outputs. The digest is the runtime's; it is taken to compute
    SHA-256 for the algorithm name the function passes. *)
Theorem int32Hash_range_and_deterministic :
  forall digest_hex : string -> string -> string,
    (forall value, digest_hex "sha256"%string value = sha256_hex value) ->
    forall value : string,
      (exists n, int32Hash digest_hex value = Some n
                 /\ 0 <= n < idHash32MaxValue
                 /\ idHash32MaxValue = 2147483647)
      /\ (forall value', value' = value ->
            int32Hash digest_hex value' = int32Hash digest_hex value).
Proof.
  intros digest_hex Hsha value. split.
  - unfold int32Hash, hash. rewrite Hsha, parseInt16_sha256_prefix.
    cbn [js_rem]. change (idHash32MaxValue =? 0) with false. cbn iota.
    eexists. split; [reflexivity |]. split; [| reflexivity].
    apply Z.rem_bound_pos; [apply sha256_wa_range | reflexivity].
  - intros value' ->. reflexivity.
Qed.

Lemma int32Hash_range_and_deterministic_witness :
  (exists n, int32Hash node_digest_hex "abc" = Some n
             /\ 0 <= n < idHash32MaxValue
             /\ idHash32MaxValue = 2147483647)
  /\ (forall value', value' = "abc"%string ->
        int32Hash node_digest_hex value' = int32Hash node_digest_hex "abc").
Proof.
  apply (int32Hash_range_and_deterministic node_digest_hex).
  intros value. reflexivity.
Defined.

(** ** Facts about the store *)

(** The store's functions are evaluated only on a store that is given
    field by field. *)
Arguments set_status v !s /.
Arguments set_instance v !s /.
Arguments set_lastRefresh v !s /.
Arguments set_lastModified v !s /.
Arguments set_stopping v !s /.
Arguments set_intervalToClear v !s /.
Arguments set_instancePromise v !s /.
Arguments set_coldLoad v !s /.
Arguments set_intervalRunning v !s /.
Arguments set_timeoutArmed v !s /.
Arguments set_inflight v !s /.
Arguments set_fetchCalls v !s /.
Arguments cold_then host definition res w !s /.
Arguments cold_catch host definition e w !s /.
Arguments refresh_finish host definition o w !s /.
Arguments refresh_start !s /.
Arguments stop !s /.
Arguments scheduleStoreRefresh definition !s /.
Arguments loop !s /.
Arguments resolve v !s /.
Arguments reject e !s /.
Arguments step host definition !s ev /.

Section StoreFacts.

Variable host : Host.
Variable definition : StoreDefinition.

Local Abbreviation step := (step host definition).
Local Abbreviation run := (run host definition).
Local Abbreviation reachable := (reachable host definition).
Local Abbreviation cold_start := createInMemoryStore.

Ltac eval_store :=
  cbn [InMemStore.step cold_then cold_catch refresh_finish refresh_start
       stop scheduleStoreRefresh loop resolve reject
       set_status set_instance set_lastRefresh set_lastModified
       set_stopping set_intervalToClear set_instancePromise set_coldLoad
       set_intervalRunning set_timeoutArmed set_inflight set_fetchCalls
       status instance lastRefresh lastModified stopping intervalToClear
       instancePromise coldLoad intervalRunning timeoutArmed inflight
       fetchCalls] in *.

Ltac break_match :=
  match goal with
  | H : context [match ?x with _ => _ end] |- _ => destruct x eqn:?
  | |- context [match ?x with _ => _ end] => destruct x eqn:?
  end.

Ltac break_all := repeat (break_match; try discriminate; eval_store).

(** Open a step of a store given field by field: one goal for each way
    the event can run. *)
Ltac open_step H :=
  eval_store; break_all; inversion H; subst; clear H; eval_store.

Ltac open_props :=
  unfold cold_inv, get_secured, unscheduled, pending, fetches_committed,
    settlement, get, getCurrent in *;
  eval_store; break_all.

Lemma run_app (evs1 evs2 : list Event) :
  forall s,
    run s (evs1 ++ evs2)
    = match run s evs1 with
      | Some s1 => run s1 evs2
      | None => None
      end.
Proof.
  induction evs1 as [| ev evs1 IH]; intros s; cbn [InMemStore.run app].
  - reflexivity.
  - destruct (step s ev); [apply IH | reflexivity].
Qed.

Lemma reachable_by (evs : list Event) (s : Store) :
  run cold_start evs = Some s -> reachable s.
Proof. intros H. exists cold_start, evs. split; [now left | exact H]. Qed.

Lemma reachable_start : reachable cold_start.
Proof. apply (reachable_by []). reflexivity. Qed.

Lemma reachable_step (s s' : Store) (ev : Event) :
  reachable s -> step s ev = Some s' -> reachable s'.
Proof.
  intros (s0 & evs & Hs0 & Hevs) Hstep. exists s0, (evs ++ [ev]).
  split; [exact Hs0 |].
  rewrite run_app, Hevs. cbn [InMemStore.run]. now rewrite Hstep.
Qed.

(** Induction along a run. *)
Lemma run_preserves (P : Store -> Prop) :
  (forall s s' ev, P s -> step s ev = Some s' -> P s') ->
  forall evs s s', P s -> run s evs = Some s' -> P s'.
Proof.
  intros Hstep. induction evs as [| ev evs IH]; intros s s' Hs Hrun;
    cbn [InMemStore.run] in Hrun.
  - now inversion Hrun; subst.
  - destruct (step s ev) as [s1 |] eqn:Hs1; [| discriminate].
    eapply IH; [| exact Hrun]. eapply Hstep; eauto.
Qed.

(** A settled promise keeps its settlement. *)
Lemma step_promise_settled (s s' : Store) (ev : Event) :
  step s ev = Some s' ->
  instancePromise s <> Pending ->
  instancePromise s' = instancePromise s.
Proof.
  intros Hstep Hset. destruct s, ev; open_step Hstep; congruence.
Qed.

Lemma run_promise_settled (evs : list Event) :
  forall s s',
    run s evs = Some s' ->
    instancePromise s <> Pending ->
    instancePromise s' = instancePromise s.
Proof.
  intros s s' Hrun Hset.
  apply (run_preserves
           (fun t => instancePromise t = instancePromise s)) with evs s;
    [| reflexivity | exact Hrun].
  intros t t' ev Ht Hstep. rewrite <- Ht.
  eapply step_promise_settled; [exact Hstep | congruence].
Qed.

Lemma step_cold_inv (s s' : Store) (ev : Event) :
  cold_inv s -> step s ev = Some s' -> cold_inv s'.
Proof.
  intros Hinv Hstep.
  destruct s, ev; open_step Hstep; open_props;
    intuition (try congruence; eauto);
    match goal with
    | H : exists _, _ = None :: _ |- _ =>
        destruct H as [later ->]; eexists; reflexivity
    end.
Qed.

Lemma reachable_cold_inv (s : Store) : reachable s -> cold_inv s.
Proof.
  intros (s0 & evs & Hs0 & Hrun).
  apply (run_preserves cold_inv step_cold_inv evs s0 s); [| exact Hrun].
  destruct Hs0 as [-> | [e ->]]; unfold cold_inv, unscheduled; cbn;
    intuition.
Qed.

Lemma step_cold_done (s s' : Store) (ev : Event) :
  step s ev = Some s' -> coldLoad s = ColdDone -> coldLoad s' = ColdDone.
Proof.
  intros Hstep Hdone. destruct s, ev; open_step Hstep; congruence.
Qed.

(** [get] is a read. *)
Lemma run_gets (n : nat) (s : Store) : run s (repeat EvGet n) = Some s.
Proof. induction n as [| n IH]; [reflexivity | exact IH]. Qed.

(** Once the one promise is rejected nothing is left that could change
    the store, except [stop()]. *)
Lemma step_dead (e : Thrown) (s s' : Store) (ev : Event) :
  dead e s -> step s ev = Some s' ->
  dead e s'
  /\ instance s' = instance s /\ lastRefresh s' = lastRefresh s
  /\ lastModified s' = lastModified s
  /\ (status s' = status s \/ ev = EvStop /\ status s' = stopped).
Proof.
  intros (Hinv & Hdone & Hrej) Hstep. unfold dead.
  destruct s, ev; open_step Hstep; open_props;
    intuition (try congruence; eauto).
Qed.

Lemma run_dead (e : Thrown) (evs : list Event) :
  forall s s',
    dead e s -> run s evs = Some s' ->
    dead e s'
    /\ instance s' = instance s /\ lastRefresh s' = lastRefresh s
    /\ lastModified s' = lastModified s
    /\ (status s' = status s \/ In EvStop evs /\ status s' = stopped).
Proof.
  induction evs as [| ev evs IH]; intros s s' Hdead Hrun;
    cbn [InMemStore.run] in Hrun.
  - inversion Hrun; subst. intuition.
  - destruct (step s ev) as [s1 |] eqn:Hs1; [| discriminate].
    destruct (step_dead e s s1 ev Hdead Hs1)
      as (Hd1 & Hi1 & Hr1 & Hm1 & Hst1).
    destruct (IH s1 s' Hd1 Hrun) as (Hd & Hi & Hr & Hm & Hst).
    split; [exact Hd |]. repeat split; try congruence.
    cbn [In]. destruct Hst as [Hst | [Hin Hst]].
    + destruct Hst1 as [Hst1 | [-> Hst1]].
      * left. congruence.
      * right. split; [now left | congruence].
    + right. split; [now right | exact Hst].
Qed.

Lemma dead_unscheduled (e : Thrown) (s : Store) :
  dead e s -> unscheduled s /\ fetchCalls s = [None].
Proof.
  intros (Hinv & Hdone & Hrej). unfold cold_inv in Hinv.
  rewrite Hdone, Hrej in Hinv. intuition.
Qed.

Lemma failed_dead (s : Store) :
  cold_inv s -> status s = failed -> exists e, dead e s.
Proof.
  intros Hinv Hfailed. unfold dead.
  destruct s; open_props; eval_store; subst;
    try (intuition congruence).
  eexists. repeat split; intuition eauto.
Qed.

(** With the stopping flag set nothing new is started. *)
Lemma step_stopping (s s' : Store) (ev : Event) :
  stopping s = true -> step s ev = Some s' ->
  stopping s' = true
  /\ (pending s' <= pending s)%nat
  /\ (fetches_committed s' <= fetches_committed s)%nat
  /\ (pending s = 0%nat ->
      lastRefresh s' = lastRefresh s /\ instance s' = instance s
      /\ lastModified s' = lastModified s
      /\ fetchCalls s' = fetchCalls s
      /\ (status s' = status s \/ status s' = stopped)).
Proof.
  intros Hstop Hstep.
  destruct s, ev; open_step Hstep; open_props;
    rewrite ?length_app; cbn [List.length];
    repeat split; try congruence; try lia; intros; try lia; auto.
Qed.

Lemma run_stopping (evs : list Event) :
  forall s s',
    stopping s = true -> run s evs = Some s' ->
    stopping s' = true
    /\ (pending s' <= pending s)%nat
    /\ (fetches_committed s' <= fetches_committed s)%nat
    /\ (pending s = 0%nat ->
        lastRefresh s' = lastRefresh s /\ instance s' = instance s
        /\ lastModified s' = lastModified s
        /\ fetchCalls s' = fetchCalls s
        /\ (status s' = status s \/ status s' = stopped)).
Proof.
  induction evs as [| ev evs IH]; intros s s' Hstop Hrun;
    cbn [InMemStore.run] in Hrun.
  - inversion Hrun; subst. repeat split; auto.
  - destruct (step s ev) as [s1 |] eqn:Hs1; [| discriminate].
    destruct (step_stopping s s1 ev Hstop Hs1) as (Hstop1 & Hp1 & Hf1 & Hq1).
    destruct (IH s1 s' Hstop1 Hrun) as (Hstop' & Hp & Hf & Hq).
    split; [assumption |]. split; [lia |]. split; [lia |].
    intros Hzero. destruct (Hq1 Hzero) as (Hr1 & Hi1 & Hm1 & Hc1 & Hst1).
    assert (Hzero1 : pending s1 = 0%nat) by lia.
    destruct (Hq Hzero1) as (Hr & Hi & Hm & Hc & Hst).
    repeat split; try congruence.
    destruct Hst as [Hst | Hst]; [| now right].
    destruct Hst1 as [Hst1 | Hst1]; [left | right]; congruence.
Qed.

Lemma get_secured_resolves (s : Store) :
  get_secured s -> exists v, settlement (get s) s = Resolved v.
Proof.
  intros [[v Hv] | (Htruthy & _)]; unfold settlement, get.
  - destruct (truthy (instance s)); eauto.
  - rewrite Htruthy. eauto.
Qed.

Lemma resolves_get_secured (s : Store) :
  cold_inv s ->
  (exists v, settlement (get s) s = Resolved v) -> get_secured s.
Proof.
  intros Hinv [v Hv]. destruct s; open_props; subst;
    try discriminate;
    intuition (subst; cbn [truthy] in *; eauto; congruence).
Qed.

Lemma step_get_secured (s s' : Store) (ev : Event) :
  cold_inv s /\ get_secured s -> step s ev = Some s' ->
  cold_inv s' /\ get_secured s'.
Proof.
  intros [Hinv Hsec] Hstep. split; [eapply step_cold_inv; eauto |].
  destruct s, ev; open_step Hstep; open_props;
    intuition (try congruence; eauto);
    match goal with
    | H : exists _, Pending = Resolved _ |- _ => destruct H; discriminate
    end.
Qed.

(** X13. What still holds of C1: once a call of [get] has been answered
    with a value, every later call is, at once. *)
Lemma get_keeps_resolving (s : Store) (evs : list Event) (s' : Store) :
  reachable s ->
  (exists v, settlement (get s) s = Resolved v) ->
  run s evs = Some s' ->
  exists v', settlement (get s') s' = Resolved v'.
Proof.
  intros Hreach Hres Hrun. apply get_secured_resolves.
  apply (run_preserves (fun t => cold_inv t /\ get_secured t)
           step_get_secured evs s s'); [| exact Hrun].
  split; [now apply reachable_cold_inv |].
  apply resolves_get_secured; [now apply reachable_cold_inv | exact Hres].
Qed.

(** The catch callback without snapshot: the status becomes [failed]
    and the chain has ended with the promise rejected. *)
Lemma cold_catch_without_snapshot
    (s : Store) (e : Thrown) (w1 w2 : World) :
  reachable s ->
  coldLoad s = FetchPending ->
  loadFromCache host definition (disk w2) = None ->
  exists s2,
    run s [EvColdSettled (Rejected e) w1; EvCatch w2] = Some s2
    /\ status s2 = failed
    /\ dead (StoreError (init_failure_message host definition e)) s2.
Proof.
  intros Hreach Hcold Hload.
  pose proof (reachable_cold_inv s Hreach) as Hinv.
  unfold cold_inv in Hinv. rewrite Hcold in Hinv.
  destruct Hinv as (_ & Hp & Hun & Hcalls & _).
  destruct s. eval_store. subst. cbn [InMemStore.run]. eval_store.
  rewrite Hload. eval_store.
  eexists. split; [reflexivity |]. unfold dead, cold_inv. eval_store.
  intuition.
Qed.

(** C2, as amended. When the promise that the first fetch returned is
    rejected and no snapshot can be loaded, [status()] becomes [failed],
    the promise every waiting [get] holds is rejected with a new [Error]
    whose message embeds the message of the fetch's error, and no fetch
    is started and no timer armed ever after. *)
Theorem cold_failure_without_snapshot
    (s : Store) (e : Thrown) (w1 w2 : World) :
  reachable s ->
  coldLoad s = FetchPending ->
  loadFromCache host definition (disk w2) = None ->
  exists s2,
    run s [EvColdSettled (Rejected e) w1; EvCatch w2] = Some s2
    /\ status s2 = failed
    /\ settlement ColdPromise s2
       = Rejected_with (StoreError (init_failure_message host definition e))
    /\ forall evs s3,
         run s2 evs = Some s3 ->
         fetchCalls s3 = [None] /\ unscheduled s3
         /\ settlement ColdPromise s3 = settlement ColdPromise s2.
Proof.
  intros Hreach Hcold Hload.
  destruct (cold_catch_without_snapshot s e w1 w2 Hreach Hcold Hload)
    as (s2 & Hrun & Hstatus & Hdead).
  exists s2. split; [exact Hrun |]. split; [exact Hstatus |].
  destruct Hdead as (Hinv2 & Hdone2 & Hrej2).
  split; [exact Hrej2 |]. intros evs s3 Hrun3.
  destruct (run_dead _ evs s2 s3 (conj Hinv2 (conj Hdone2 Hrej2)) Hrun3)
    as (Hdead3 & _).
  destruct (dead_unscheduled _ s3 Hdead3) as [Hun Hcalls].
  repeat split; try apply Hun; [exact Hcalls |].
  cbn [settlement]. destruct Hdead3 as (_ & _ & ->). now rewrite Hrej2.
Qed.

(** X29. The fallback as the catch callback does it: when the promise
    that the first fetch returned is rejected and the snapshot can be
    read, the promise every waiting [get] holds is resolved with the
    snapshot's value,
    [status()] is [outdated], [lastRefresh()] is the file's modification
    time, and [scheduleStoreRefresh] has run: the interval timer is set,
    or, with a non-positive interval, the loop's timeout is armed unless
    [stop()] was called before. *)
Theorem cold_fallback_to_snapshot
    (s : Store) (e : Thrown) (w1 w2 : World)
    (dir text : string) (mtime : Date) (v : JsVal) :
  reachable s ->
  coldLoad s = FetchPending ->
  configured_localDir definition = Some dir ->
  readFileSync (disk w2) (cacheFile definition dir) = Normal text ->
  statSync_mtime (disk w2) (cacheFile definition dir) = Normal mtime ->
  deserialize host definition text = Normal v ->
  exists s2,
    run s [EvColdSettled (Rejected e) w1; EvCatch w2] = Some s2
    /\ settlement ColdPromise s2 = Resolved v
    /\ getCurrent s2 = v
    /\ status s2 = outdated
    /\ lastRefresh s2 = Some mtime
    /\ (interval_mode definition = true ->
        intervalRunning s2 = true /\ intervalToClear s2 = true)
    /\ (interval_mode definition = false ->
        timeoutArmed s2 = negb (stopping s)).
Proof.
  intros Hreach Hcold Hdir Hread Hstat Hde.
  pose proof (reachable_cold_inv s Hreach) as Hinv.
  assert (Hload : loadFromCache host definition (disk w2)
                  = Some {| updateDate := mtime; cached_instance := v |}).
  { unfold loadFromCache. now rewrite Hdir, Hread, Hstat, Hde. }
  destruct s. cbn [InMemStore.run]. eval_store. subst. eval_store.
  rewrite Hload. cbn [updateDate cached_instance].
  unfold cold_inv, unscheduled in Hinv. eval_store.
  destruct Hinv as (_ & -> & (_ & -> & _) & _).
  unfold settlement, getCurrent.
  destruct (interval_mode definition) eqn:Hmode; eval_store;
    [| destruct stopping0; eval_store];
    eexists; (split; [reflexivity |]); eval_store;
    repeat split; intros; try congruence.
Qed.

(** C3. A first fetch that fails by throwing, instead of returning a
    promise that is rejected, gets no fallback: the catch callback that
    would load the snapshot is never run, whatever the disk holds. For
    good, [get] is rejected with what was thrown, no value is held,
    [lastRefresh()] is undefined, nothing is scheduled, and the status
    stays [initializing] until [stop()] is called. (The catch callback
    hangs on the promise that the fetch returns; a fetch that throws
    returns none.) *)
Theorem thrown_first_fetch_gets_no_fallback
    (e : Thrown) (evs : list Event) (s' : Store) :
  run (createInMemoryStore_thrown e) evs = Some s' ->
  settlement (get s') s' = Rejected_with e
  /\ getCurrent s' = VUndefined
  /\ (status s' = initializing \/ In EvStop evs /\ status s' = stopped)
  /\ lastRefresh s' = None
  /\ fetchCalls s' = [None]
  /\ unscheduled s'
  /\ (forall w, step s' (EvCatch w) = None).
Proof.
  intros Hrun.
  assert (Hdead : dead e (createInMemoryStore_thrown e)).
  { unfold dead, cold_inv, unscheduled. cbn. intuition. }
  destruct (run_dead e evs _ s' Hdead Hrun)
    as (Hdead' & Hval & Hrefresh & _ & Hstatus).
  destruct (dead_unscheduled e s' Hdead') as [Hun Hcalls].
  destruct Hdead' as (_ & Hdone & Hrej).
  cbn [instance lastRefresh status createInMemoryStore_thrown] in *.
  unfold settlement, get, getCurrent. rewrite Hval. cbn [truthy].
  repeat split; try apply Hun; try assumption.
  intros w. unfold InMemStore.step. now rewrite Hdone.
Qed.

(** C6. A scheduled refresh whose fetch answers [not_modified] leaves
    the value and the last-modified marker as they were, sets the status
    to [ok] and [lastRefresh] to the current time. *)
Theorem refresh_not_modified_frame (s : Store) (w : World) :
  inflight s <> 0%nat ->
  exists s',
    step s (EvRefreshSettled (Fulfilled not_modified) w) = Some s'
    /\ getCurrent s' = getCurrent s
    /\ lastModified s' = lastModified s
    /\ status s' = ok
    /\ lastRefresh s' = Some (now w).
Proof.
  intros Hinflight. unfold getCurrent. destruct s. eval_store.
  destruct inflight0 as [| n]; [congruence |]. eval_store.
  destruct (interval_mode definition); eval_store;
    [| destruct stopping0; eval_store];
    eexists; (split; [reflexivity |]); eval_store; repeat split.
Qed.

(** C7. While the cold load lasts [definition.refresh] has been called
    once, without marker, however many times [get] is called; a [get]
    during the first fetch returns the one promise made at construction,
    and what that promise settles to never changes afterwards. *)
Theorem cold_load_fetches_once (s : Store) :
  reachable s ->
  (coldLoad s <> ColdDone -> fetchCalls s = [None])
  /\ (exists later, fetchCalls s = None :: later)
  /\ (coldLoad s = FetchPending ->
      get s = ColdPromise /\ instancePromise s = Pending)
  /\ (forall n, run s (repeat EvGet n) = Some s)
  /\ (forall evs s',
        run s evs = Some s' ->
        settlement ColdPromise s <> Pending ->
        settlement ColdPromise s' = settlement ColdPromise s).
Proof.
  intros Hreach. pose proof (reachable_cold_inv s Hreach) as Hinv.
  unfold cold_inv in Hinv.
  split; [| split; [| split; [| split]]].
  - intros Hnot. destruct (coldLoad s); intuition congruence.
  - destruct (coldLoad s); [| | destruct (instancePromise s)];
      intuition eauto.
  - intros Hcold. rewrite Hcold in Hinv. unfold get.
    destruct Hinv as (-> & -> & _). split; reflexivity.
  - intros n. apply run_gets.
  - intros evs s' Hrun Hset. cbn [settlement] in *.
    eapply run_promise_settled; eauto.
Qed.

(** The defect under C4 in general: a refresh whose fetch brought a
    value ends as a failed refresh when [saveLocalCache] throws. *)
Lemma refresh_persist_failure
    (s : Store) (lm : option Date) (store : JsVal) (w : World) (e : Thrown) :
  inflight s <> 0%nat ->
  saveLocalCache host definition (disk w) store = Throws e ->
  exists s',
    step s (EvRefreshSettled (Fulfilled (Fresh lm store)) w) = Some s'
    /\ status s' = outdated
    /\ getCurrent s' = getCurrent s
    /\ lastRefresh s' = lastRefresh s
    /\ lastModified s' = lastModified s.
Proof.
  intros Hinflight Hsave. unfold getCurrent. destruct s. eval_store.
  destruct inflight0 as [| n]; [congruence |]. eval_store.
  rewrite Hsave.
  destruct (interval_mode definition); eval_store;
    [| destruct stopping0; eval_store];
    eexists; (split; [reflexivity |]); eval_store; repeat split.
Qed.

(** [saveLocalCache] throws what [mkdirSync] or the serializer throws. *)
Lemma saveLocalCache_throws (d : Disk) (inst : JsVal) (e : Thrown) :
  saveLocalCache host definition d inst = Throws e <->
  exists dir,
    configured_localDir definition = Some dir
    /\ (mkdirSync d dir = Throws e
        \/ (exists u, mkdirSync d dir = Normal u)
           /\ serialize host definition inst = Throws e).
Proof.
  unfold saveLocalCache. split.
  - destruct (configured_localDir definition) as [dir |]; [| discriminate].
    intros H. exists dir. split; [reflexivity |].
    destruct (mkdirSync d dir) as [u | e1]; [| left; congruence].
    right. split; [now exists u |].
    destruct (serialize host definition inst); congruence.
  - intros (dir & -> & [-> | [[u ->] ->]]); reflexivity.
Qed.

(** C9. [get] tests the value held for truthiness: with a falsy value
    it returns the promise made at construction. So when a refresh
    stores a falsy value, [get] answers with what the cold load
    delivered and not with the value held. *)
Theorem get_tests_truthiness
    (s : Store) (v0 v1 : JsVal) (lm : option Date) (w : World) :
  settlement ColdPromise s = Resolved v0 ->
  inflight s <> 0%nat ->
  truthy v1 = false ->
  (forall e, saveLocalCache host definition (disk w) v1 <> Throws e) ->
  (forall t, truthy (instance t) = false -> get t = ColdPromise)
  /\ (forall t, truthy (instance t) = true -> get t = Immediate (instance t))
  /\ exists s',
       step s (EvRefreshSettled (Fulfilled (Fresh lm v1)) w) = Some s'
       /\ getCurrent s' = v1
       /\ get s' = ColdPromise
       /\ settlement (get s') s' = Resolved v0.
Proof.
  intros Hcold Hinflight Hfalsy Hsave. unfold get.
  split; [now intros t -> |]. split; [now intros t -> |].
  unfold settlement, getCurrent in *. destruct s. eval_store.
  destruct inflight0 as [| n]; [congruence |]. eval_store.
  destruct (saveLocalCache host definition (disk w) v1) eqn:Hs;
    [| now destruct (Hsave e)].
  destruct lm; eval_store;
    (destruct (interval_mode definition); eval_store;
     [| destruct stopping0; eval_store]);
    eexists; (split; [reflexivity |]); eval_store;
    rewrite Hfalsy; repeat split; assumption.
Qed.

(** C5, as amended. [stop()] sets the status to [stopped] and the
    stopping flag. From then on nothing new is started: what is pending
    (cold load, armed timeout, refreshes under way) never grows, and no
    fetch is called beyond the one an armed timeout had committed. If
    nothing was pending when [stop()] was called, the status stays
    [stopped], [lastRefresh()] and [lastModified()] never change and
    [getCurrent()] keeps returning the same value. *)
Theorem stop_freezes_idle_store
    (s0 : Store) (evs : list Event) (s' : Store) :
  run s0 (EvStop :: evs) = Some s' ->
  status (stop s0) = stopped
  /\ stopping s' = true
  /\ (pending s' <= pending s0)%nat
  /\ (fetches_committed s' <= fetches_committed s0)%nat
  /\ (pending s0 = 0%nat ->
      status s' = stopped
      /\ lastRefresh s' = lastRefresh s0
      /\ lastModified s' = lastModified s0
      /\ getCurrent s' = getCurrent s0).
Proof.
  intros Hrun. cbn [InMemStore.run InMemStore.step] in Hrun.
  assert (Hstop : stopping (stop s0) = true /\ status (stop s0) = stopped
                  /\ pending (stop s0) = pending s0
                  /\ fetches_committed (stop s0) = fetches_committed s0
                  /\ lastRefresh (stop s0) = lastRefresh s0
                  /\ lastModified (stop s0) = lastModified s0
                  /\ instance (stop s0) = instance s0).
  { destruct s0. unfold pending, fetches_committed. eval_store.
    destruct intervalToClear0; eval_store; repeat split. }
  destruct Hstop as (Hflag & Hst & Hp & Hf & Hr & Hm & Hi).
  destruct (run_stopping evs (stop s0) s' Hflag Hrun)
    as (Hflag' & Hp' & Hf' & Hq).
  split; [exact Hst |]. split; [exact Hflag' |].
  split; [lia |]. split; [lia |].
  intros Hzero. rewrite <- Hp in Hzero.
  destruct (Hq Hzero) as (Hr' & Hi' & Hm' & _ & Hst').
  unfold getCurrent. repeat split; try congruence.
  destruct Hst'; congruence.
Qed.

(** C8, as amended. The status becomes [failed] only in the catch
    callback of the cold load, when no snapshot can be loaded; a
    refresh that settles leaves [ok] or [outdated]; and once the status
    is [failed] no fetch is called and no timer armed any more, the
    status changing only to [stopped], by a call of [stop()]. *)
Theorem failed_only_by_cold_catch (s : Store) :
  reachable s ->
  (forall ev s',
      step s ev = Some s' -> status s' = failed -> status s <> failed ->
      exists e w,
        ev = EvCatch w /\ coldLoad s = CatchQueued e
        /\ loadFromCache host definition (disk w) = None)
  /\ (forall o w s',
        step s (EvRefreshSettled o w) = Some s' ->
        status s' = ok \/ status s' = outdated)
  /\ (status s = failed ->
      forall evs s',
        run s evs = Some s' ->
        (status s' = failed \/ In EvStop evs /\ status s' = stopped)
        /\ fetchCalls s' = fetchCalls s /\ unscheduled s').
Proof.
  intros Hreach. pose proof (reachable_cold_inv s Hreach) as Hinv.
  split; [| split].
  - intros ev s' Hstep Hfailed Hnot.
    destruct s, ev; open_step Hstep; try congruence;
      eexists; eexists; repeat split; assumption.
  - intros o w s' Hstep.
    destruct s; open_step Hstep; auto.
  - intros Hfailed evs s' Hrun.
    destruct (failed_dead s Hinv Hfailed) as [e Hdead].
    destruct (run_dead e evs s s' Hdead Hrun) as (Hdead' & _ & _ & _ & Hst).
    destruct (dead_unscheduled e s Hdead) as [_ Hcalls].
    destruct (dead_unscheduled e s' Hdead') as [Hun' Hcalls'].
    repeat split; try apply Hun'; [| congruence].
    destruct Hst as [Hst | Hst]; [left; congruence | now right].
Qed.

Lemma step_mode_inv (s s' : Store) (ev : Event) :
  cold_inv s /\ mode_inv definition s -> step s ev = Some s' ->
  cold_inv s' /\ mode_inv definition s'.
Proof.
  intros [Hinv Hmode] Hstep. split; [eapply step_cold_inv; eauto |].
  unfold mode_inv in *.
  destruct s, ev; open_step Hstep; open_props;
    intuition (try congruence; try lia).
Qed.

(** X10. The two ways of scheduling never mix, and the loop is single
    flight: with an interval no timeout is ever armed; without one no
    interval timer runs and at most one fetch is armed or under way. *)
Theorem scheduling_modes (s : Store) :
  reachable s ->
  (interval_mode definition = true -> timeoutArmed s = false)
  /\ (interval_mode definition = false ->
      intervalRunning s = false
      /\ (inflight s + (if timeoutArmed s then 1 else 0) <= 1)%nat).
Proof.
  intros (s0 & evs & Hs0 & Hrun).
  assert (H : cold_inv s0 /\ mode_inv definition s0).
  { destruct Hs0 as [-> | [e ->]]; unfold cold_inv, mode_inv, unscheduled;
      cbn; destruct (interval_mode definition); intuition. }
  pose proof (run_preserves _ step_mode_inv evs s0 s H Hrun)
    as [_ Hmode].
  unfold mode_inv in Hmode.
  destruct (interval_mode definition); split; intros; try discriminate;
    intuition.
Qed.

Lemma step_unloaded_inv (s s' : Store) (ev : Event) :
  unloaded_inv s -> step s ev = Some s' -> unloaded_inv s'.
Proof.
  intros Hun Hstep. unfold unloaded_inv in *.
  destruct s, ev; open_step Hstep; intuition (try congruence).
Qed.

(** X4. While [status()] is [initializing] the store has loaded nothing:
    [lastRefresh()] is undefined, the fetch has been called once, no
    timer is set and no refresh is under way, and the promise made at
    construction has not been fulfilled. It is pending, or, when the
    first call of the fetch threw instead of returning a promise,
    rejected, and then no value is held. *)
Theorem initializing_means_unloaded (s : Store) :
  reachable s ->
  status s = initializing ->
  lastRefresh s = None
  /\ fetchCalls s = [None]
  /\ unscheduled s
  /\ (settlement ColdPromise s = Pending
      \/ (exists e, settlement ColdPromise s = Rejected_with e)
         /\ getCurrent s = VUndefined
         /\ coldLoad s = ColdDone)
  /\ (get s = ColdPromise \/ exists e, coldLoad s = CatchQueued e).
Proof.
  intros Hreach Hinit.
  pose proof (reachable_cold_inv s Hreach) as Hinv.
  assert (Hun : unloaded_inv s).
  { destruct Hreach as (s0 & evs & Hs0 & Hrun).
    apply (run_preserves _ step_unloaded_inv evs s0 s); [| exact Hrun].
    destruct Hs0 as [-> | [e ->]]; intros _; reflexivity. }
  split; [exact (Hun Hinit) |].
  unfold cold_inv in Hinv. cbn [settlement]. unfold getCurrent, get.
  destruct (coldLoad s) eqn:Hcold.
  - destruct Hinv as (Hval & Hp & Hu & Hcalls & _). rewrite Hval.
    repeat split; try apply Hu; auto.
  - destruct Hinv as (Hp & Hu & Hcalls & _).
    repeat split; try apply Hu; eauto.
  - destruct (instancePromise s) as [| v | e] eqn:Hp.
    + destruct Hinv.
    + intuition congruence.
    + destruct Hinv as (Hu & Hcalls & [Hst | [Hst | [_ Hval]]]);
        try congruence.
      rewrite Hval. repeat split; try apply Hu; try assumption; [| now left].
      right. repeat split. now exists e.
Qed.

(** X2. The happy start: when the first fetch brings a value and it can
    be handed to the cache, the promise of [get] is resolved with it,
    status is [ok], [lastRefresh()] is the current time,
    [lastModified()] is the marker that came with the value (none if
    none came), and the scheduler is started. *)
Theorem cold_success_outcome
    (s : Store) (lm : option Date) (store : JsVal) (w : World) :
  reachable s ->
  coldLoad s = FetchPending ->
  (forall e, saveLocalCache host definition (disk w) store <> Throws e) ->
  exists s1,
    step s (EvColdSettled (Fulfilled (Fresh lm store)) w) = Some s1
    /\ settlement ColdPromise s1 = Resolved store
    /\ getCurrent s1 = store
    /\ status s1 = ok
    /\ lastRefresh s1 = Some (now w)
    /\ lastModified s1 = lm
    /\ fetchCalls s1 = [None]
    /\ (interval_mode definition = true ->
        intervalRunning s1 = true /\ timeoutArmed s1 = false)
    /\ (interval_mode definition = false ->
        intervalRunning s1 = false
        /\ timeoutArmed s1 = negb (stopping s)).
Proof.
  intros Hreach Hcold Hsave.
  pose proof (reachable_cold_inv s Hreach) as Hinv.
  unfold cold_inv in Hinv. rewrite Hcold in Hinv.
  destruct Hinv as (_ & Hp & (Hir & Hta & _ & _) & Hcalls & _).
  unfold settlement, getCurrent. destruct s. eval_store. subst. eval_store.
  destruct (saveLocalCache host definition (disk w) store) eqn:Hs;
    [| now destruct (Hsave e)].
  destruct (interval_mode definition); eval_store;
    [| destruct stopping0; eval_store];
    eexists; (split; [reflexivity |]); eval_store;
    repeat split; intros; congruence.
Qed.

(** X3. An answer [not_modified] to the first fetch counts as a failed
    first fetch: without snapshot the store ends [failed], holding no
    value, and the error given to the callers of [get] quotes the
    message of the contract violation. *)
Theorem first_not_modified_is_failure (s : Store) (w1 w2 : World) :
  reachable s ->
  coldLoad s = FetchPending ->
  loadFromCache host definition (disk w2) = None ->
  exists s2,
    run s [EvColdSettled (Fulfilled not_modified) w1; EvCatch w2] = Some s2
    /\ status s2 = failed
    /\ getCurrent s2 = VUndefined
    /\ settlement ColdPromise s2
       = Rejected_with
           (StoreError
              (init_failure_message host definition
                 (StoreError "Not modified. (must never happen on first load)")))
    /\ fetchCalls s2 = [None] /\ unscheduled s2.
Proof.
  intros Hreach Hcold Hload.
  pose proof (reachable_cold_inv s Hreach) as Hinv.
  unfold cold_inv in Hinv. rewrite Hcold in Hinv.
  destruct Hinv as (Hi & Hp & Hun & Hcalls & _).
  unfold settlement, getCurrent, unscheduled in *.
  destruct s. eval_store. subst. cbn [InMemStore.run]. eval_store.
  rewrite Hload. eval_store.
  eexists. split; [reflexivity |]. eval_store. intuition.
Qed.

(** X5. A refresh whose fetch fails changes the status to [outdated] and
    nothing else: the value, [lastRefresh()], [lastModified()] and what
    [get] answers are as before. *)
Theorem refresh_rejected_keeps_value (s : Store) (e : Thrown) (w : World) :
  inflight s <> 0%nat ->
  exists s',
    step s (EvRefreshSettled (Rejected e) w) = Some s'
    /\ status s' = outdated
    /\ getCurrent s' = getCurrent s
    /\ lastRefresh s' = lastRefresh s
    /\ lastModified s' = lastModified s
    /\ settlement (get s') s' = settlement (get s) s
    /\ fetchCalls s' = fetchCalls s.
Proof.
  intros Hinflight. unfold settlement, get, getCurrent. destruct s. eval_store.
  destruct inflight0 as [| n]; [congruence |]. eval_store.
  destruct (interval_mode definition); eval_store;
    [| destruct stopping0; eval_store];
    eexists; (split; [reflexivity |]); eval_store; repeat split.
Qed.

(** X6. A refresh whose fetch brings a value that can be handed to the
    cache replaces the value, sets status [ok] and [lastRefresh()] to
    the current time; the marker is replaced only when a new one came
    with the value. *)
Theorem refresh_fresh_replaces
    (s : Store) (lm : option Date) (store : JsVal) (w : World) :
  inflight s <> 0%nat ->
  (forall e, saveLocalCache host definition (disk w) store <> Throws e) ->
  exists s',
    step s (EvRefreshSettled (Fulfilled (Fresh lm store)) w) = Some s'
    /\ getCurrent s' = store
    /\ status s' = ok
    /\ lastRefresh s' = Some (now w)
    /\ lastModified s'
       = match lm with
         | Some m => Some m
         | None => lastModified s
         end
    /\ inflight s' = Nat.pred (inflight s).
Proof.
  intros Hinflight Hsave. unfold getCurrent. destruct s. eval_store.
  destruct inflight0 as [| n]; [congruence |]. eval_store.
  destruct (saveLocalCache host definition (disk w) store) eqn:Hs;
    [| now destruct (Hsave e)].
  destruct lm; eval_store;
    (destruct (interval_mode definition); eval_store;
     [| destruct stopping0; eval_store]);
    eexists; (split; [reflexivity |]); eval_store; repeat split.
Qed.

(** X7. The marker goes round: the marker that a refresh stored is the
    argument of the next fetch, be it started by the interval timer or
    by the loop. *)
Theorem marker_is_passed_on
    (s : Store) (m : Date) (store : JsVal) (w : World) :
  inflight s <> 0%nat ->
  stopping s = false ->
  (interval_mode definition = true -> intervalRunning s = true) ->
  (forall e, saveLocalCache host definition (disk w) store <> Throws e) ->
  exists s2,
    run s [EvRefreshSettled (Fulfilled (Fresh (Some m) store)) w;
           if interval_mode definition then EvIntervalTick else EvTimeout]
    = Some s2
    /\ fetchCalls s2 = fetchCalls s ++ [Some m]
    /\ lastModified s2 = Some m.
Proof.
  intros Hinflight Hstop Hrunning Hsave.
  destruct s. eval_store. subst. cbn [InMemStore.run]. eval_store.
  destruct inflight0 as [| n]; [congruence |]. eval_store.
  destruct (saveLocalCache host definition (disk w) store) eqn:Hs;
    [| now destruct (Hsave e)].
  destruct (interval_mode definition) eqn:Hmode; eval_store.
  - rewrite (Hrunning eq_refl). eval_store.
    eexists. split; [reflexivity |]. eval_store. split; reflexivity.
  - eexists. split; [reflexivity |]. eval_store. split; reflexivity.
Qed.

(** X11. [stop()] is idempotent. *)
Theorem stop_idempotent (s : Store) :
  run s [EvStop; EvStop] = run s [EvStop].
Proof.
  cbn [InMemStore.run InMemStore.step]. f_equal.
  destruct s. eval_store.
  destruct intervalToClear0; eval_store; reflexivity.
Qed.

(** X8. Nothing keeps refreshes from overlapping: each tick of the
    interval timer starts a fetch whether or not earlier ones have
    settled, all of them with the marker held at that time. *)
Theorem interval_ticks_overlap (n : nat) :
  forall s,
    intervalRunning s = true ->
    stopping s = false ->
    exists s',
      run s (repeat EvIntervalTick n) = Some s'
      /\ inflight s' = (inflight s + n)%nat
      /\ fetchCalls s' = fetchCalls s ++ repeat (lastModified s) n
      /\ getCurrent s' = getCurrent s /\ status s' = status s.
Proof.
  induction n as [| n IH]; intros s Hrunning Hstop;
    cbn [repeat InMemStore.run].
  - exists s. rewrite Nat.add_0_r, app_nil_r. repeat split.
  - destruct s. eval_store. subst. eval_store.
    match goal with
    | |- exists s', InMemStore.run _ _ ?s1 _ = _ /\ _ =>
        destruct (IH s1 eq_refl eq_refl) as (s' & Hrun & Hin & Hcalls & Hval & Hst)
    end.
    exists s'. split; [exact Hrun |]. eval_store. unfold getCurrent in *.
    eval_store. rewrite Hin, Hcalls, <- app_assoc. cbn [app].
    repeat split; try assumption. lia.
Qed.

(** X12. A store stopped before its first load has ended never refreshes:
    whatever the first load brings and whatever fires afterwards, the
    fetch is never called a second time. *)
Theorem stopped_before_loaded_never_refreshes
    (s : Store) (evs : list Event) (s' : Store) :
  reachable s ->
  coldLoad s <> ColdDone ->
  stopping s = true ->
  run s evs = Some s' ->
  fetchCalls s' = [None] /\ inflight s' = 0%nat /\ timeoutArmed s' = false.
Proof.
  intros Hreach Hcold Hstop Hrun.
  pose proof (reachable_cold_inv s Hreach) as Hinv.
  assert (Hstart : fetchCalls s = [None] /\ inflight s = 0%nat
                   /\ timeoutArmed s = false).
  { unfold cold_inv, unscheduled in Hinv.
    destruct (coldLoad s); intuition congruence. }
  clear Hreach Hcold Hinv. revert s s' Hstop Hstart Hrun.
  induction evs as [| ev evs IH]; intros s s' Hstop Hstart Hrun;
    cbn [InMemStore.run] in Hrun.
  - now inversion Hrun; subst.
  - destruct (step s ev) as [s1 |] eqn:Hs1; [| discriminate].
    apply (IH s1 s'); [| | exact Hrun].
    + eapply step_stopping; eauto.
    + destruct Hstart as (Hcalls & Hin & Harmed).
      destruct s, ev; open_step Hs1; repeat split; congruence.
Qed.

(** X14. What is saved is found again: [loadFromCache] reads the file
    that [saveLocalCache] writes, and gives back what the deserializer
    makes of the text, with the file's modification time. *)
Theorem cache_round_trip
    (d d' : Disk) (inst inst' : JsVal) (file text : string) (mtime : Date) :
  saveLocalCache host definition d inst = Normal (Some (file, text)) ->
  readFileSync d' file = Normal text ->
  statSync_mtime d' file = Normal mtime ->
  deserialize host definition text = Normal inst' ->
  serialize host definition inst = Normal text
  /\ loadFromCache host definition d'
     = Some {| updateDate := mtime; cached_instance := inst' |}.
Proof.
  unfold saveLocalCache, loadFromCache.
  destruct (configured_localDir definition) as [dir |]; [| discriminate].
  destruct (mkdirSync d dir); [| discriminate].
  destruct (serialize host definition inst) as [t |]; [| discriminate].
  intros Hsave Hread Hstat Hde. inversion Hsave; subst.
  now rewrite Hread, Hstat, Hde.
Qed.

(** X15. [loadFromCache] gives a value exactly when a directory is
    configured and reading the file, asking for its time and
    deserializing its text all go well; in every other case it answers
    that there is none, and it never throws. *)
Theorem loadFromCache_spec (d : Disk) (c : CachedInstance) :
  loadFromCache host definition d = Some c <->
  exists dir text,
    configured_localDir definition = Some dir
    /\ readFileSync d (cacheFile definition dir) = Normal text
    /\ statSync_mtime d (cacheFile definition dir) = Normal (updateDate c)
    /\ deserialize host definition text = Normal (cached_instance c).
Proof.
  unfold loadFromCache. split.
  - destruct (configured_localDir definition) as [dir |]; [| discriminate].
    destruct (readFileSync d _) as [text |] eqn:Hread; [| discriminate].
    destruct (statSync_mtime d _) as [mtime |] eqn:Hstat; [| discriminate].
    destruct (deserialize host definition text) as [inst |] eqn:Hde;
      [| discriminate].
    intros H. inversion H; subst. exists dir, text. repeat split; assumption.
  - intros (dir & text & -> & -> & -> & ->). now destruct c.
Qed.

(** X16. Without cache directory (not set, or set to the empty string)
    nothing is saved or loaded, so a first fetch whose promise is
    rejected always ends in status [failed]. *)
Theorem no_cache_directory
    (s : Store) (e : Thrown) (w1 w2 : World) :
  localDir definition = None \/ localDir definition = Some ""%string ->
  reachable s ->
  coldLoad s = FetchPending ->
  (forall d inst, saveLocalCache host definition d inst = Normal None)
  /\ (forall d, loadFromCache host definition d = None)
  /\ exists s2,
       run s [EvColdSettled (Rejected e) w1; EvCatch w2] = Some s2
       /\ status s2 = failed.
Proof.
  intros Hdir Hreach Hcold.
  assert (Hnone : configured_localDir definition = None).
  { unfold configured_localDir. destruct Hdir as [-> | ->]; reflexivity. }
  assert (Hload : forall d, loadFromCache host definition d = None).
  { intros d. unfold loadFromCache. now rewrite Hnone. }
  split; [| split; [exact Hload |]].
  - intros d inst. unfold saveLocalCache. now rewrite Hnone.
  - destruct (cold_catch_without_snapshot s e w1 w2 Hreach Hcold (Hload _))
      as (s2 & Hrun & Hst & _).
    exists s2. split; assumption.
Qed.

(** X9. Of two refreshes under way the one that settles last wins, with
    the value; the marker is the last one that came, which may be the
    one of the earlier settlement. *)
Theorem last_settlement_wins
    (s : Store) (lm1 lm2 : option Date) (v1 v2 : JsVal) (w1 w2 : World) :
  (2 <= inflight s)%nat ->
  (forall e, saveLocalCache host definition (disk w1) v1 <> Throws e) ->
  (forall e, saveLocalCache host definition (disk w2) v2 <> Throws e) ->
  exists s2,
    run s [EvRefreshSettled (Fulfilled (Fresh lm1 v1)) w1;
           EvRefreshSettled (Fulfilled (Fresh lm2 v2)) w2] = Some s2
    /\ getCurrent s2 = v2
    /\ lastRefresh s2 = Some (now w2)
    /\ status s2 = ok
    /\ lastModified s2
       = match lm2, lm1 with
         | Some m2, _ => Some m2
         | None, Some m1 => Some m1
         | None, None => lastModified s
         end.
Proof.
  intros Hinflight Hsave1 Hsave2. unfold getCurrent.
  destruct s. eval_store. cbn [InMemStore.run]. eval_store.
  destruct inflight0 as [| [| n]]; try lia. eval_store.
  destruct (saveLocalCache host definition (disk w1) v1) eqn:Hs1;
    [| now destruct (Hsave1 e)].
  destruct (saveLocalCache host definition (disk w2) v2) eqn:Hs2;
    [| now destruct (Hsave2 e)].
  destruct lm1, lm2; eval_store;
    (destruct (interval_mode definition) eqn:Hmode; eval_store;
     [| destruct stopping0; eval_store]);
    rewrite ?Hs2; eval_store; rewrite ?Hmode; eval_store;
    eexists; (split; [reflexivity |]); eval_store; repeat split.
Qed.

End StoreFacts.

(** ** The scenarios *)

Example falsy_values :
  truthy (VNum 0) = false /\ truthy (VStr "") = false
  /\ truthy (VBool false) = false /\ truthy VNull = false
  /\ truthy VUndefined = false /\ truthy VNaN = false
  /\ truthy (VStr "0") = true /\ truthy (VObj 0) = true.
Proof. repeat split. Qed.

Example cold_success_runs :
  run small_host interval_def createInMemoryStore cold_success
  = Some started_store
  /\ run small_host interval_def createInMemoryStore refresh_started
     = Some refreshing_store
  /\ run small_host interval_def createInMemoryStore cold_failure
     = Some failed_store.
Proof. vm_compute. repeat split. Qed.

(** C1. A value obtained by the first fetch does not always make [get]
    succeed. Here the first fetch delivers the number 0, [saveLocalCache]
    throws because the directory cannot be made, and no snapshot exists:
    the value is held, [getCurrent] returns it, and yet [get] answers
    with a rejected promise. *)
Theorem get_rejects_though_value_fetched :
  exists s,
    run small_host interval_def createInMemoryStore zero_on_readonly_disk
    = Some s
    /\ getCurrent s = VNum 0
    /\ status s = failed
    /\ get s = ColdPromise
    /\ settlement (get s) s
       = Rejected_with
           (StoreError
              "Failed to initialize store profiles. Initial load failed with EROFS: read-only file system and no local cache found").
Proof.
  eexists. split; [vm_compute; reflexivity |]. vm_compute. repeat split.
Qed.

(** C4. A failure while persisting does fail the refresh. Here the
    refresh fetches a fresh value, creating the cache directory throws,
    and the refresh ends as a failed one: status [outdated], the old
    value kept, [lastRefresh] not stamped. *)
Theorem refresh_outdated_when_persisting_throws :
  exists s,
    step small_host interval_def refreshing_store fresh_on_readonly_disk
    = Some s
    /\ saveLocalCache small_host interval_def readonly_disk (VBool true)
       = Throws (External "EROFS: read-only file system")
    /\ status refreshing_store = ok /\ status s = outdated
    /\ getCurrent refreshing_store = VNum 7 /\ getCurrent s = VNum 7
    /\ lastRefresh refreshing_store = Some 100 /\ lastRefresh s = Some 100.
Proof.
  eexists. split; [vm_compute; reflexivity |]. vm_compute. repeat split.
Qed.

(** C2 as stated does not hold: the promise is rejected with an [Error]
    made by the store, not with what the fetch was rejected with. *)
Lemma cold_failure_rejects_with_new_error :
  exists s,
    run small_host interval_def createInMemoryStore cold_failure = Some s
    /\ status s = failed
    /\ settlement ColdPromise s = Rejected_with cold_failure_error
    /\ settlement ColdPromise s <> Rejected_with connection_refused.
Proof.
  eexists. split; [vm_compute; reflexivity |]. vm_compute.
  repeat split. discriminate.
Qed.

(** C5 as stated does not hold: a refresh under way when [stop()] is
    called sets the status back to [ok], stamps [lastRefresh] and
    replaces the value. *)
Lemma late_refresh_overrides_stopped :
  exists s_stop s_end,
    run small_host interval_def createInMemoryStore stop_during_refresh
    = Some s_stop
    /\ run small_host interval_def s_stop late_settlement = Some s_end
    /\ status s_stop = stopped /\ status s_end = ok
    /\ lastRefresh s_stop = Some 100 /\ lastRefresh s_end = Some 1100
    /\ getCurrent s_stop = VNum 7 /\ getCurrent s_end = VBool true.
Proof.
  eexists. eexists. split; [vm_compute; reflexivity |].
  split; [vm_compute; reflexivity |]. vm_compute. repeat split.
Qed.

(** C8 as stated does not hold: [stop()] moves a [failed] store to
    [stopped]. *)
Lemma stop_leaves_failed :
  exists s,
    step small_host interval_def failed_store EvStop = Some s
    /\ reachable small_host interval_def failed_store
    /\ status failed_store = failed
    /\ status s = stopped.
Proof.
  eexists. split; [vm_compute; reflexivity |].
  split; [exists createInMemoryStore, cold_failure; split;
          [now left | vm_compute; reflexivity] |].
  vm_compute. split; reflexivity.
Qed.

Lemma cold_failure_without_snapshot_witness :
  exists s2,
    run small_host interval_def createInMemoryStore cold_failure = Some s2
    /\ status s2 = failed
    /\ settlement ColdPromise s2
       = Rejected_with
           (StoreError
              (init_failure_message small_host interval_def connection_refused))
    /\ forall evs s3,
         run small_host interval_def s2 evs = Some s3 ->
         fetchCalls s3 = [None] /\ unscheduled s3
         /\ settlement ColdPromise s3 = settlement ColdPromise s2.
Proof.
  apply (cold_failure_without_snapshot small_host interval_def
           createInMemoryStore connection_refused
           (at_time 100 empty_disk) (at_time 100 empty_disk)).
  - exists createInMemoryStore, []. split; [now left | reflexivity].
  - reflexivity.
  - vm_compute. reflexivity.
Defined.

Lemma cold_fallback_to_snapshot_witness :
  exists s2,
    run small_host interval_def createInMemoryStore cold_fallback = Some s2
    /\ settlement ColdPromise s2 = Resolved (VNum 7)
    /\ getCurrent s2 = VNum 7
    /\ status s2 = outdated
    /\ lastRefresh s2 = Some 40
    /\ (interval_mode interval_def = true ->
        intervalRunning s2 = true /\ intervalToClear s2 = true)
    /\ (interval_mode interval_def = false ->
        timeoutArmed s2 = negb (stopping createInMemoryStore)).
Proof.
  apply (cold_fallback_to_snapshot small_host interval_def
           createInMemoryStore connection_refused
           (at_time 100 empty_disk) (at_time 100 (snapshot_disk "7" 40))
           "/var/cache" "7" 40 (VNum 7)).
  - exists createInMemoryStore, []. split; [now left | reflexivity].
  - reflexivity.
  - vm_compute. reflexivity.
  - vm_compute. reflexivity.
  - vm_compute. reflexivity.
  - vm_compute. reflexivity.
Defined.

Lemma thrown_first_fetch_gets_no_fallback_witness :
  loadFromCache small_host interval_def (snapshot_disk "7" 40)
  = Some {| updateDate := 40; cached_instance := VNum 7 |}
  /\ settlement (get (createInMemoryStore_thrown connection_refused))
       (createInMemoryStore_thrown connection_refused)
     = Rejected_with connection_refused
  /\ getCurrent (createInMemoryStore_thrown connection_refused) = VUndefined
  /\ (status (createInMemoryStore_thrown connection_refused) = initializing
      \/ In EvStop [EvGet; EvGet]
         /\ status (createInMemoryStore_thrown connection_refused) = stopped)
  /\ lastRefresh (createInMemoryStore_thrown connection_refused) = None
  /\ fetchCalls (createInMemoryStore_thrown connection_refused) = [None]
  /\ unscheduled (createInMemoryStore_thrown connection_refused)
  /\ (forall w,
        step small_host interval_def
          (createInMemoryStore_thrown connection_refused) (EvCatch w) = None).
Proof.
  split; [vm_compute; reflexivity |].
  apply (thrown_first_fetch_gets_no_fallback small_host interval_def
           connection_refused [EvGet; EvGet]
           (createInMemoryStore_thrown connection_refused)).
  reflexivity.
Defined.

Lemma refresh_not_modified_frame_witness :
  exists s',
    step small_host interval_def refreshing_store
      (EvRefreshSettled (Fulfilled not_modified) (at_time 1100 empty_disk))
    = Some s'
    /\ getCurrent s' = getCurrent refreshing_store
    /\ lastModified s' = lastModified refreshing_store
    /\ status s' = ok
    /\ lastRefresh s' = Some (now (at_time 1100 empty_disk)).
Proof.
  apply (refresh_not_modified_frame small_host interval_def refreshing_store
           (at_time 1100 empty_disk)).
  vm_compute. discriminate.
Defined.

Lemma cold_load_fetches_once_witness :
  (coldLoad createInMemoryStore <> ColdDone ->
   fetchCalls createInMemoryStore = [None])
  /\ (exists later, fetchCalls createInMemoryStore = None :: later)
  /\ (coldLoad createInMemoryStore = FetchPending ->
      get createInMemoryStore = ColdPromise
      /\ instancePromise createInMemoryStore = Pending)
  /\ (forall n,
        run small_host interval_def createInMemoryStore (repeat EvGet n)
        = Some createInMemoryStore)
  /\ (forall evs s',
        run small_host interval_def createInMemoryStore evs = Some s' ->
        settlement ColdPromise createInMemoryStore <> Pending ->
        settlement ColdPromise s'
        = settlement ColdPromise createInMemoryStore).
Proof.
  apply (cold_load_fetches_once small_host interval_def createInMemoryStore).
  exists createInMemoryStore, []. split; [now left | reflexivity].
Defined.

Lemma get_tests_truthiness_witness :
  (forall t, truthy (instance t) = false -> get t = ColdPromise)
  /\ (forall t, truthy (instance t) = true -> get t = Immediate (instance t))
  /\ exists s',
       step small_host interval_def refreshing_store fresh_zero = Some s'
       /\ getCurrent s' = VNum 0
       /\ get s' = ColdPromise
       /\ settlement (get s') s' = Resolved (VNum 7).
Proof.
  apply (get_tests_truthiness small_host interval_def refreshing_store
           (VNum 7) (VNum 0) (Some 60) (at_time 1100 empty_disk)).
  - reflexivity.
  - vm_compute. discriminate.
  - reflexivity.
  - intros e. vm_compute. discriminate.
Defined.

Lemma stop_freezes_idle_store_witness :
  status (stop started_store) = stopped
  /\ stopping (stop started_store) = true
  /\ (pending (stop started_store) <= pending started_store)%nat
  /\ (fetches_committed (stop started_store)
      <= fetches_committed started_store)%nat
  /\ (pending started_store = 0%nat ->
      status (stop started_store) = stopped
      /\ lastRefresh (stop started_store) = lastRefresh started_store
      /\ lastModified (stop started_store) = lastModified started_store
      /\ getCurrent (stop started_store) = getCurrent started_store).
Proof.
  apply (stop_freezes_idle_store small_host interval_def started_store
           [EvGet; EvStop] (stop started_store)).
  vm_compute. reflexivity.
Defined.

Lemma failed_only_by_cold_catch_witness :
  (forall ev s',
      step small_host interval_def failed_store ev = Some s' ->
      status s' = failed -> status failed_store <> failed ->
      exists e w,
        ev = EvCatch w /\ coldLoad failed_store = CatchQueued e
        /\ loadFromCache small_host interval_def (disk w) = None)
  /\ (forall o w s',
        step small_host interval_def failed_store (EvRefreshSettled o w)
        = Some s' ->
        status s' = ok \/ status s' = outdated)
  /\ (status failed_store = failed ->
      forall evs s',
        run small_host interval_def failed_store evs = Some s' ->
        (status s' = failed \/ In EvStop evs /\ status s' = stopped)
        /\ fetchCalls s' = fetchCalls failed_store /\ unscheduled s').
Proof.
  apply (failed_only_by_cold_catch small_host interval_def failed_store).
  exists createInMemoryStore, cold_failure. split; [now left | vm_compute; reflexivity].
Defined.

(** ** Facts about the profiles function and its collections *)

Import Profiles.

Section ProfilesFacts.

Variable digest_hex : string -> string -> string.
Variable describe : Thrown -> string.

Local Abbreviation ensure := (pbEnsureMongoCollection describe).
Local Abbreviation profiles := (ProfilesFunction digest_hex describe).
Local Abbreviation handled := (handle digest_hex describe).

Lemma set_has_add (x : string) (s : list string) :
  set_has x (set_add x s) = true.
Proof.
  unfold set_add. destruct (set_has x s) eqn:Hx; [exact Hx |].
  unfold set_has. rewrite existsb_app. cbn [existsb].
  rewrite String.eqb_refl. now rewrite orb_true_r.
Qed.

Lemma set_has_add_mono (x y : string) (s : list string) :
  set_has y s = true -> set_has y (set_add x s) = true.
Proof.
  intros Hy. unfold set_add. destruct (set_has x s); [exact Hy |].
  unfold set_has in *. rewrite existsb_app, Hy. reflexivity.
Qed.

Lemma obj_get_set (k k' : string) (v : Json) (o : JsObject) :
  obj_get k (obj_set k' v o) = if String.eqb k k' then v else obj_get k o.
Proof.
  induction o as [| [k0 v0] o IH]; cbn [obj_set obj_get].
  - destruct (String.eqb k k'); reflexivity.
  - destruct (String.eqb k' k0) eqn:Hk0; cbn [obj_get].
    + apply String.eqb_eq in Hk0. subst k0.
      destruct (String.eqb k k'); reflexivity.
    + rewrite IH. destruct (String.eqb k k') eqn:Hkk'; [| reflexivity].
      apply String.eqb_eq in Hkk'. subst k'. now rewrite Hk0.
Qed.

Lemma obj_has_set (k k' : string) (v : Json) (o : JsObject) :
  obj_has k (obj_set k' v o) = (String.eqb k k' || obj_has k o)%bool.
Proof.
  induction o as [| [k0 v0] o IH]; cbn [obj_set obj_has].
  - destruct (String.eqb k k'); reflexivity.
  - destruct (String.eqb k' k0) eqn:Hk0; cbn [obj_has].
    + apply String.eqb_eq in Hk0. subst k0.
      destruct (String.eqb k k'); reflexivity.
    + rewrite IH. destruct (String.eqb k k0); [now rewrite orb_true_r |].
      reflexivity.
Qed.

(** Setting a property keeps the property names apart. *)
Lemma obj_set_keys_nodup (k : string) (v : Json) (o : JsObject) :
  NoDup (map fst o) -> NoDup (map fst (obj_set k v o)).
Proof.
  induction o as [| [k0 v0] o IH]; cbn [obj_set map fst]; intros Hnd.
  - constructor; [intros [] | constructor].
  - inversion Hnd as [| ? ? Hnotin Hrest]; subst.
    destruct (String.eqb k k0) eqn:Hk0; cbn [map fst].
    + constructor; assumption.
    + constructor; [| now apply IH].
      intros Hin. apply Hnotin. clear - Hin Hk0.
      induction o as [| [k1 v1] o IHo]; cbn [obj_set map fst] in *.
      * destruct Hin as [Heq | []]. subst k0.
        now rewrite String.eqb_refl in Hk0.
      * destruct (String.eqb k k1); cbn [map fst In] in *;
          destruct Hin as [Heq | Hin]; auto.
Qed.

Lemma obj_has_in (k : string) (o : JsObject) :
  obj_has k o = true <-> In k (map fst o).
Proof.
  induction o as [| [k0 v0] o IH]; cbn [obj_has map fst In].
  - split; [discriminate | intros []].
  - destruct (String.eqb k k0) eqn:Hk.
    + apply String.eqb_eq in Hk. subst. split; auto.
    + rewrite IH. split; [auto | intros [Heq | Hin]; [| exact Hin]].
      subst. now rewrite String.eqb_refl in Hk.
Qed.

Lemma obj_get_missing (k : string) (o : JsObject) :
  obj_has k o = false -> obj_get k o = JUndefined.
Proof.
  induction o as [| [k0 v0] o IH]; cbn [obj_has obj_get]; [reflexivity |].
  destruct (String.eqb k k0); [discriminate | exact IH].
Qed.

Lemma obj_get_in (k : string) (v : Json) (o : JsObject) :
  NoDup (map fst o) -> In (k, v) o -> obj_get k o = v.
Proof.
  induction o as [| [k0 v0] o IH]; cbn [map fst In obj_get];
    intros Hnd Hin; [destruct Hin |].
  inversion Hnd as [| ? ? Hnotin Hrest]; subst.
  destruct Hin as [Heq | Hin].
  - inversion Heq; subst. now rewrite String.eqb_refl.
  - destruct (String.eqb k k0) eqn:Hk; [| now apply IH].
    apply String.eqb_eq in Hk. subst k0. exfalso. apply Hnotin.
    change k with (fst (k, v)). now apply in_map.
Qed.

Lemma obj_has_get_in (k : string) (o : JsObject) :
  obj_has k o = true -> In (k, obj_get k o) o.
Proof.
  induction o as [| [k0 v0] o IH]; cbn [obj_has obj_get In];
    [discriminate |].
  destruct (String.eqb k k0) eqn:Hk.
  - apply String.eqb_eq in Hk. subst. now left.
  - intros H. right. now apply IH.
Qed.

(** What is read from an object does not depend on the order of its
    properties. *)
Lemma obj_get_permutation (k : string) (o o' : JsObject) :
  NoDup (map fst o) -> Permutation o o' -> obj_get k o' = obj_get k o.
Proof.
  intros Hnd Hperm.
  assert (Hnd' : NoDup (map fst o')).
  { eapply Permutation_NoDup; [| exact Hnd]. now apply Permutation_map. }
  destruct (obj_has k o) eqn:Hhas.
  - apply obj_get_in; [exact Hnd' |].
    eapply Permutation_in; [exact Hperm |]. now apply obj_has_get_in.
  - rewrite (obj_get_missing k o Hhas). apply obj_get_missing.
    destruct (obj_has k o') eqn:Hhas'; [| reflexivity].
    apply obj_has_in in Hhas'. exfalso.
    assert (Hin : In k (map fst o)).
    { eapply Permutation_in; [| exact Hhas'].
      apply Permutation_map, Permutation_sym, Hperm. }
    apply obj_has_in in Hin. congruence.
Qed.

Lemma insert_by_index_permutation (kv : string * Json) (o : JsObject) :
  Permutation (insert_by_index kv o) (kv :: o).
Proof.
  induction o as [| kv' o IH]; cbn [insert_by_index]; [reflexivity |].
  destruct (index_value kv <=? index_value kv'); [reflexivity |].
  rewrite IH. apply perm_swap.
Qed.

Lemma sort_by_index_permutation (o : JsObject) :
  Permutation (sort_by_index o) o.
Proof.
  unfold sort_by_index. induction o as [| kv o IH]; cbn [fold_right];
    [reflexivity |].
  rewrite insert_by_index_permutation. now constructor.
Qed.

Lemma filter_split_permutation (p : string * Json -> bool) (o : JsObject) :
  Permutation (filter p o ++ filter (fun kv => negb (p kv)) o) o.
Proof.
  induction o as [| kv o IH]; cbn [filter app]; [reflexivity |].
  destruct (p kv); cbn [negb app].
  - now constructor.
  - rewrite <- Permutation_middle. now constructor.
Qed.

Lemma own_properties_permutation (o : JsObject) :
  Permutation (own_properties o) o.
Proof.
  unfold own_properties. rewrite sort_by_index_permutation.
  apply filter_split_permutation.
Qed.

Lemma insert_by_index_sorted (kv : string * Json) (o : JsObject) :
  Sorted Z.le (map index_value o) ->
  Sorted Z.le (map index_value (insert_by_index kv o)).
Proof.
  induction o as [| kv' o IH]; cbn [insert_by_index map]; intros Hs.
  - repeat constructor.
  - destruct (index_value kv <=? index_value kv') eqn:Hle; cbn [map].
    + constructor; [exact Hs |]. constructor. now apply Z.leb_le.
    + inversion Hs as [| ? ? Hrest Hhd]; subst.
      constructor; [now apply IH |].
      apply Z.leb_gt in Hle.
      destruct o as [| kv'' o]; cbn [insert_by_index map].
      * constructor. lia.
      * destruct (index_value kv <=? index_value kv''); cbn [map];
          constructor; [lia |].
        inversion Hhd; subst. assumption.
Qed.

Lemma sort_by_index_sorted (o : JsObject) :
  Sorted Z.le (map index_value (sort_by_index o)).
Proof.
  unfold sort_by_index. induction o as [| kv o IH]; cbn [fold_right map].
  - constructor.
  - now apply insert_by_index_sorted.
Qed.

Lemma assigned_fields (fields : list string) :
  forall o : JsObject,
    NoDup (map fst o) ->
    (forall f,
        obj_get f (fold_left (fun index field =>
                                obj_assign field (JNum 1) index) fields o)
        = if (existsb (String.eqb f) fields
              && negb (String.eqb f "__proto__"))%bool
          then JNum 1 else obj_get f o)
    /\ NoDup (map fst (fold_left (fun index field =>
                                    obj_assign field (JNum 1) index)
                                 fields o)).
Proof.
  induction fields as [| g fields IH]; intros o Hnd; cbn [fold_left existsb].
  - split; [reflexivity | exact Hnd].
  - unfold obj_assign at 2 4.
    destruct (String.eqb g "__proto__") eqn:Hg.
    + destruct (IH o Hnd) as [Hget Hnd']. split; [| exact Hnd'].
      intros f. rewrite Hget. apply String.eqb_eq in Hg. subst g.
      destruct (String.eqb f "__proto__"); cbn [orb negb andb];
        [now rewrite !andb_false_r | reflexivity].
    + destruct (IH (obj_set g (JNum 1) o)
                  (obj_set_keys_nodup g (JNum 1) o Hnd)) as [Hget Hnd'].
      split; [| exact Hnd']. intros f. rewrite Hget, obj_get_set.
      destruct (String.eqb f g) eqn:Hfg; cbn [orb].
      * apply String.eqb_eq in Hfg. subst f. rewrite Hg. cbn [negb].
        rewrite andb_true_r.
        destruct (existsb (String.eqb g) fields); reflexivity.
      * reflexivity.
Qed.

Lemma obj_set_new (k : string) (v : Json) (o : JsObject) :
  obj_has k o = false -> obj_set k v o = o ++ [(k, v)].
Proof.
  induction o as [| [k0 v0] o IH]; cbn [obj_has obj_set app];
    [reflexivity |].
  destruct (String.eqb k k0); [discriminate |].
  intros H. now rewrite IH.
Qed.

(** A name that is neither [__proto__] nor an array index. *)
Lemma assigned_plain_fields (fields : list string) :
  forall o : JsObject,
    NoDup (map fst o ++ fields) ->
    forallb ordinary_name fields = true ->
    fold_left (fun index field => obj_assign field (JNum 1) index) fields o
    = o ++ map (fun f => (f, JNum 1)) fields.
Proof.
  induction fields as [| g fields IH]; intros o Hnd Hplain;
    cbn [fold_left map].
  - now rewrite app_nil_r.
  - cbn [forallb] in Hplain. apply andb_true_iff in Hplain.
    destruct Hplain as [Hg Hplain]. unfold ordinary_name in Hg.
    apply andb_true_iff in Hg. destruct Hg as [Hproto _].
    unfold obj_assign at 2.
    destruct (String.eqb g "__proto__"); [discriminate |].
    assert (Hnew : obj_has g o = false).
    { destruct (obj_has g o) eqn:Hhas; [| reflexivity].
      apply obj_has_in in Hhas. exfalso.
      apply NoDup_remove_2 in Hnd. apply Hnd. apply in_or_app. now left. }
    rewrite (obj_set_new g (JNum 1) o Hnew).
    rewrite IH; [now rewrite <- app_assoc | | exact Hplain].
    rewrite map_app. cbn [map fst]. rewrite <- app_assoc. exact Hnd.
Qed.

(** X21. The index built from the fields, as it is sent: it holds every
    listed field except [__proto__], with the value 1, and nothing else,
    each field once even when it is listed twice; the names that are
    array indices come first, in ascending order; and when the fields
    are distinct ordinary names, the index lists them in their order. *)
Theorem index_of_fields (indexFields : list string) :
  (forall f, obj_get f (index_of indexFields)
             = if (existsb (String.eqb f) indexFields
                   && negb (String.eqb f "__proto__"))%bool
               then JNum 1 else JUndefined)
  /\ NoDup (map fst (index_of indexFields))
  /\ (exists indices names,
        index_of indexFields = indices ++ names
        /\ forallb is_array_index indices = true
        /\ Sorted Z.le (map index_value indices)
        /\ forallb (fun kv => negb (is_array_index kv)) names = true)
  /\ (NoDup indexFields ->
      forallb ordinary_name indexFields = true ->
      index_of indexFields = map (fun f => (f, JNum 1)) indexFields).
Proof.
  unfold index_of.
  destruct (assigned_fields indexFields [] (NoDup_nil _)) as [Hget Hnd].
  set (assigned :=
         fold_left (fun index field => obj_assign field (JNum 1) index)
                   indexFields []) in *.
  split; [| split; [| split]].
  - intros f.
    rewrite (obj_get_permutation f assigned (own_properties assigned) Hnd)
      by (apply Permutation_sym, own_properties_permutation).
    rewrite Hget. reflexivity.
  - eapply Permutation_NoDup; [| exact Hnd].
    apply Permutation_map, Permutation_sym, own_properties_permutation.
  - unfold own_properties. eexists. eexists. split; [reflexivity |].
    split; [| split].
    + apply forallb_forall. intros kv Hin.
      apply (Permutation_in _ (sort_by_index_permutation _)) in Hin.
      apply filter_In in Hin. apply Hin.
    + apply sort_by_index_sorted.
    + apply forallb_forall. intros kv Hin. apply filter_In in Hin. apply Hin.
  - intros Hdistinct Hplain. subst assigned.
    rewrite (assigned_plain_fields indexFields [] Hdistinct Hplain).
    cbn [app]. unfold own_properties.
    assert (Hnone : forall l,
               forallb ordinary_name l = true ->
               filter is_array_index (map (fun f => (f, JNum 1)) l) = []
               /\ filter (fun kv => negb (is_array_index kv))
                    (map (fun f => (f, JNum 1)) l)
                  = map (fun f => (f, JNum 1)) l).
    { induction l as [| g l IH]; cbn [forallb map filter]; [now split |].
      intros H. apply andb_true_iff in H. destruct H as [Hg Hl].
      destruct (IH Hl) as [H1 H2]. unfold ordinary_name in Hg.
      apply andb_true_iff in Hg. destruct Hg as [_ Hidx].
      assert (Hno : is_array_index (g, JNum 1) = false).
      { unfold is_array_index. cbn [fst].
        destruct (array_index g); [discriminate | reflexivity]. }
      rewrite Hno. cbn [negb]. now rewrite H1, H2. }
    destruct (Hnone indexFields Hplain) as [-> ->]. reflexivity.
Qed.

(** A call of [pbEnsureMongoCollection] only provisions, logs nothing,
    and adds at most its own collection name. *)
Lemma ensure_shape (created : list string) (m : Mongo)
    (db name : string) (ttl : Z) (fields : list string) (u : option bool) :
  let r := ensure created m db name ttl fields u in
  forallb is_provisioning (commands r) = true
  /\ logs r = []
  /\ match outcome r with
     | Normal _ => created_after r = set_add name created
     | Throws e =>
         created_after r = created
         /\ exists err, e = create_failure describe name err
     end.
Proof.
  cbv zeta. unfold pbEnsureMongoCollection.
  destruct (set_has name created) eqn:Hhas; cbn [commands logs outcome created_after].
  - repeat split. unfold set_add. now rewrite Hhas.
  - destruct (json_truthy _); cbn [commands logs outcome created_after];
      [repeat split |].
    destruct (createCollection m db name (60 * 60 * 24 * ttl));
      cbn [commands logs outcome created_after];
      [| repeat split; eauto].
    destruct fields as [| f fields];
      cbn [commands logs outcome created_after]; [repeat split |].
    destruct (createIndex m db name _ _);
      cbn [commands logs outcome created_after]; repeat split; eauto.
Qed.

Lemma ensure_keeps (created : list string) (m : Mongo)
    (db name : string) (ttl : Z) (fields : list string) (u : option bool)
    (y : string) :
  set_has y created = true ->
  set_has y (created_after (ensure created m db name ttl fields u)) = true.
Proof.
  intros Hy.
  pose proof (ensure_shape created m db name ttl fields u) as H.
  cbv zeta in H. destruct H as (_ & _ & H).
  destruct (outcome (ensure created m db name ttl fields u)).
  - rewrite H. now apply set_has_add_mono.
  - destruct H as [-> _]. exact Hy.
Qed.

Lemma ensure_known (created : list string) (m : Mongo)
    (db name : string) (ttl : Z) (fields : list string) (u : option bool) :
  set_has name created = true ->
  ensure created m db name ttl fields u = ran (Normal tt) [] created [].
Proof. intros H. unfold pbEnsureMongoCollection. now rewrite H. Qed.

(** X17. A collection that one call has ensured is never looked at again:
    any later call for the same collection name returns at once and
    sends nothing, whatever database, lifetime or index it asks for. *)
Theorem ensure_runs_once
    (created : list string) (m : Mongo) (db name : string) (ttl : Z)
    (fields : list string) (u : option bool) :
  outcome (ensure created m db name ttl fields u) = Normal tt ->
  forall m' db' ttl' fields' u',
    ensure (created_after (ensure created m db name ttl fields u))
      m' db' name ttl' fields' u'
    = ran (Normal tt) []
        (created_after (ensure created m db name ttl fields u)) [].
Proof.
  intros Hok m' db' ttl' fields' u'. apply ensure_known.
  pose proof (ensure_shape created m db name ttl fields u) as H.
  cbv zeta in H. destruct H as (_ & _ & H). rewrite Hok in H.
  rewrite H. apply set_has_add.
Qed.

Lemma ensure_asks_first (created : list string) (m : Mongo)
    (db name : string) (ttl : Z) (fields : list string) (u : option bool) :
  set_has name created = false ->
  exists rest,
    commands (ensure created m db name ttl fields u) = CollStats db name :: rest.
Proof.
  intros Hhas. unfold pbEnsureMongoCollection. rewrite Hhas.
  destruct (json_truthy _); [eexists; reflexivity |].
  destruct (createCollection m db name _); [| eexists; reflexivity].
  destruct fields; [eexists; reflexivity |].
  destruct (createIndex m db name _ _); eexists; reflexivity.
Qed.

(** X18. When [pbEnsureMongoCollection] throws, it is because creating the
    collection or its index threw; what it throws is a new [Error] that
    names the collection and carries the text of the cause; the set of
    created collections is as before, so that the next call asks the
    database again. *)
Theorem ensure_failure
    (created : list string) (m : Mongo) (db name : string) (ttl : Z)
    (fields : list string) (u : option bool) (e : Thrown) :
  outcome (ensure created m db name ttl fields u) = Throws e ->
  created_after (ensure created m db name ttl fields u) = created
  /\ set_has name created = false
  /\ (exists err,
        e = StoreError ("Failed to create collection " ++ name ++ ": "
                          ++ describe err)
        /\ (createCollection m db name (86400 * ttl) = Throws err
            \/ createIndex m db name (index_of fields)
                 (match u with Some true => true | _ => false end)
               = Throws err))
  /\ forall m' ttl' fields' u',
       exists rest,
         commands (ensure created m' db name ttl' fields' u')
         = CollStats db name :: rest.
Proof.
  intros Hthrow.
  assert (Hhas : set_has name created = false).
  { destruct (set_has name created) eqn:Hhas; [| reflexivity].
    rewrite ensure_known in Hthrow by exact Hhas. discriminate. }
  split; [| split; [exact Hhas | split]].
  - pose proof (ensure_shape created m db name ttl fields u) as H.
    cbv zeta in H. destruct H as (_ & _ & H). rewrite Hthrow in H. apply H.
  - revert Hthrow. unfold pbEnsureMongoCollection. rewrite Hhas.
    change (60 * 60 * 24 * ttl) with (86400 * ttl).
    destruct (json_truthy _); cbn [outcome]; [discriminate |].
    destruct (createCollection m db name (86400 * ttl)) as [x | err];
      cbn [outcome].
    + destruct fields as [| f fields]; cbn [outcome]; [discriminate |].
      destruct (createIndex m db name _ _) as [y | err] eqn:Hindex;
        cbn [outcome]; [discriminate |].
      intros Hthrow. inversion Hthrow; subst e.
      exists err. split; [reflexivity | now right].
    + intros Hthrow. inversion Hthrow; subst e.
      exists err. split; [reflexivity | now left].
  - intros m' ttl' fields' u'. now apply ensure_asks_first.
Qed.

(** X19. A collection that exists is taken as it is: when the statistics
    query answers with a document, nothing is created and no index is
    built, whatever lifetime and index fields the call asks for. *)
Theorem ensure_existing
    (created : list string) (m : Mongo) (db name : string) (ttl : Z)
    (fields : list string) (u : option bool) (doc : Json) :
  set_has name created = false ->
  collStats m db name = Normal doc ->
  json_truthy doc = true ->
  ensure created m db name ttl fields u
  = ran (Normal tt) [CollStats db name] (created ++ [name]) [].
Proof.
  intros Hhas Hstats Hdoc. unfold pbEnsureMongoCollection, set_add.
  now rewrite Hhas, Hstats, Hdoc.
Qed.

(** X20. A collection that is not found (the statistics query is rejected,
    or answers with nothing) is created with a lifetime of 86400 seconds
    per day of [ttlDays]; an index on the given fields follows when
    there are any, unique only when [unique] is true; then the name is
    remembered. *)
Theorem ensure_missing
    (created : list string) (m : Mongo) (db name : string) (ttl : Z)
    (fields : list string) (u : option bool) :
  set_has name created = false ->
  (forall doc, collStats m db name = Normal doc -> json_truthy doc = false) ->
  createCollection m db name (86400 * ttl) = Normal tt ->
  createIndex m db name (index_of fields)
    (match u with Some true => true | _ => false end) = Normal tt ->
  ensure created m db name ttl fields u
  = ran (Normal tt)
      ([CollStats db name; CreateCollection db name (86400 * ttl)]
       ++ match fields with
          | [] => []
          | _ :: _ =>
              [CreateIndex db name (index_of fields)
                 (match u with Some true => true | _ => false end)]
          end)
      (created ++ [name]) [].
Proof.
  intros Hhas Hstats Hcreate Hindex. unfold pbEnsureMongoCollection, set_add.
  change (60 * 60 * 24 * ttl) with (86400 * ttl).
  rewrite Hhas, Hcreate.
  assert (Hnot : json_truthy
                   match collStats m db name with
                   | Normal doc => doc
                   | Throws _ => JUndefined
                   end = false).
  { destruct (collStats m db name) as [doc | err]; [| reflexivity].
    now apply Hstats. }
  rewrite Hnot. destruct fields as [| f fields]; [reflexivity |].
  rewrite Hindex. reflexivity.
Qed.

Lemma spread_has (k : string) (source : JsObject) :
  forall target,
    obj_has k (spread target source)
    = (obj_has k source || obj_has k target)%bool.
Proof.
  unfold spread. induction source as [| [k0 v0] source IH]; intros target;
    cbn [fold_left obj_has fst snd].
  - reflexivity.
  - rewrite IH, obj_has_set.
    destruct (String.eqb k k0), (obj_has k source), (obj_has k target);
      reflexivity.
Qed.

(** Spreading an object over another: its properties win. *)
Lemma spread_get (k : string) (source : JsObject) :
  NoDup (map fst source) ->
  forall target,
    obj_get k (spread target source)
    = if obj_has k source then obj_get k source else obj_get k target.
Proof.
  unfold spread. induction source as [| [k0 v0] source IH];
    intros Hnd target; cbn [fold_left obj_has obj_get fst snd].
  - reflexivity.
  - inversion Hnd as [| ? ? Hnotin Hrest]; subst.
    rewrite (IH Hrest), obj_get_set.
    destruct (String.eqb k k0) eqn:Hk; [| reflexivity].
    apply String.eqb_eq in Hk. subst k0.
    destruct (obj_has k source) eqn:Hin; [| reflexivity].
    apply obj_has_in in Hin. contradiction.
Qed.

(** Replace the calls of [pbEnsureMongoCollection] by what is known of
    their results. *)
Ltac abstract_ensure :=
  repeat match goal with
    | |- context [pbEnsureMongoCollection ?d ?c ?m ?db ?n ?t ?f ?u] =>
        let r := fresh "r" in
        let E := fresh "E" in
        pose proof (ensure_shape c m db n t f u) as E; cbv zeta in E;
        generalize dependent (pbEnsureMongoCollection d c m db n t f u);
        intros r E; destruct E as (? & ? & ?)
    end.

Ltac open_profiles :=
  unfold handle, send; cbv zeta; abstract_ensure.

Lemma provisioning_not_insert (cs : list Command) :
  forallb is_provisioning cs = true ->
  forallb (fun c => negb (is_insert c)) cs = true
  /\ forallb (fun c => negb (is_upsert c)) cs = true.
Proof.
  induction cs as [| c cs IH]; cbn [forallb]; [now split |].
  intros H. apply andb_true_iff in H. destruct H as [Hc Hcs].
  destruct (IH Hcs) as [H1 H2]. rewrite H1, H2.
  destruct c; try discriminate; split; reflexivity.
Qed.

Lemma handle_success_shape
    (config : ProfilesConfig)
    (created : list string) (env : Env) (event : JsObject) (ctx : Context) :
  json_truthy (obj_get "userId" event) = true ->
  outcome (handled config created env event ctx) = Normal tt ->
  exists prov doc acknowledged before,
    commands (handled config created env event ctx)
    = WaitInit (singleton_key digest_hex ctx config)
      :: prov
      ++ (if is_identify event
          then [FindOneAndUpdate (eventsDatabase config)
                  (traitsCollectionName config)
                  (obj_get "userId" event) (obj_get "anonymousId" event)
                  (obj_get "traits" event) (today env)]
          else [])
      ++ [InsertOne (eventsDatabase config)
            (eventsCollectionName config) doc]
    /\ forallb is_provisioning prov = true
    /\ insertOne (mongo env) (eventsDatabase config)
         (eventsCollectionName config) doc = Normal acknowledged
    /\ logs (handled config created env event ctx)
       = before ++ [if acknowledged then LogInserted else LogInsertFailed].
Proof.
  intros Huser. open_profiles. rewrite Huser. cbn [negb].
  destruct (waitInit env _); cbn [outcome commands logs]; [| discriminate].
  destruct r as [o1 c1 s1 l1]; cbn [outcome commands logs created_after] in *.
  destruct o1; cbn [outcome commands logs]; [| discriminate].
  destruct r0 as [o2 c2 s2 l2]; cbn [outcome commands logs created_after] in *.
  destruct o2; cbn [outcome commands logs]; [| discriminate].
  destruct (is_identify event).
  - destruct (findOneAndUpdate _ _ _ _ _ _ _); cbn [outcome commands logs];
      [| discriminate].
    destruct (int32Hash_of digest_hex (obj_get "userId" event));
      cbn [outcome commands logs]; [| discriminate].
    destruct (insertOne _ _ _ _) eqn:Hins; cbn [outcome commands logs];
      [| discriminate].
    intros _. exists (c1 ++ c2). eexists. eexists. eexists.
    split; [| split; [| split; [exact Hins | reflexivity]]].
    + cbn [app]. now rewrite <- !app_assoc.
    + rewrite forallb_app. now apply andb_true_iff.
  - destruct (int32Hash_of digest_hex (obj_get "userId" event));
      cbn [outcome commands logs]; [| discriminate].
    destruct (insertOne _ _ _ _) eqn:Hins; cbn [outcome commands logs];
      [| discriminate].
    intros _. exists (c1 ++ c2). eexists. eexists. exists [].
    split; [| split; [| split; [exact Hins | reflexivity]]].
    + cbn [app]. now rewrite <- !app_assoc.
    + rewrite forallb_app. now apply andb_true_iff.
Qed.

Lemma not_inserted (db coll : string) (doc : JsObject) (cs : list Command) :
  forallb (fun c => negb (is_insert c)) cs = true ->
  ~ In (InsertOne db coll doc) cs.
Proof.
  intros Hall Hin. rewrite forallb_forall in Hall.
  specialize (Hall _ Hin). discriminate.
Qed.

Lemma handle_inserted_document
    (config : ProfilesConfig)
    (created : list string) (env : Env) (event : JsObject) (ctx : Context)
    (db coll : string) (doc : JsObject) :
  NoDup (map fst event) ->
  In (InsertOne db coll doc) (commands (handled config created env event ctx)) ->
  db = eventsDatabase config
  /\ coll = eventsCollectionName config
  /\ (exists u,
        obj_get "userId" event = JStr u
        /\ obj_get "userId" doc = JStr u
        /\ obj_get profileIdColumn doc
           = (if obj_has profileIdColumn event
              then obj_get profileIdColumn event else JStr u)
        /\ obj_get profileIdHashColumn doc
           = (if obj_has profileIdHashColumn event
              then obj_get profileIdHashColumn event
              else match int32Hash digest_hex u with
                   | Some n => JNum n
                   | None => JNaN
                   end))
  /\ (forall k, obj_has k event = true -> obj_get k doc = obj_get k event)
  /\ (forall k,
        obj_has k doc
        = (obj_has k event || String.eqb k profileIdHashColumn
           || String.eqb k profileIdColumn)%bool).
Proof.
  intros Hnd. open_profiles.
  destruct (json_truthy (obj_get "userId" event)) eqn:Huser; cbn [negb];
    [| intros []].
  assert (Hfinal : forall u h,
             obj_get "userId" event = JStr u ->
             h = match int32Hash digest_hex u with
                 | Some n => JNum n
                 | None => JNaN
                 end ->
             InsertOne db coll doc
             = InsertOne (eventsDatabase config)
                 (eventsCollectionName config)
                 (spread [(profileIdHashColumn, h); (profileIdColumn, JStr u)]
                    event) ->
             db = eventsDatabase config
             /\ coll = eventsCollectionName config
             /\ (exists u0,
                   obj_get "userId" event = JStr u0
                   /\ obj_get "userId" doc = JStr u0
                   /\ obj_get profileIdColumn doc
                      = (if obj_has profileIdColumn event
                         then obj_get profileIdColumn event else JStr u0)
                   /\ obj_get profileIdHashColumn doc
                      = (if obj_has profileIdHashColumn event
                         then obj_get profileIdHashColumn event
                         else match int32Hash digest_hex u0 with
                              | Some n => JNum n
                              | None => JNaN
                              end))
             /\ (forall k,
                   obj_has k event = true -> obj_get k doc = obj_get k event)
             /\ (forall k,
                   obj_has k doc
                   = (obj_has k event || String.eqb k profileIdHashColumn
                      || String.eqb k profileIdColumn)%bool)).
  { intros u h Hu -> Heq. inversion Heq; subst db coll doc. clear Heq.
    assert (Hhas : obj_has "userId" event = true).
    { destruct (obj_has "userId" event) eqn:Hh; [reflexivity |].
      assert (Hnone : obj_get "userId" event = JUndefined).
      { clear - Hh. induction event as [| [k0 v0] o IH];
          cbn [obj_has obj_get] in *; [reflexivity |].
        destruct (String.eqb "userId" k0); [discriminate | now apply IH]. }
      rewrite Hnone in Hu. discriminate. }
    split; [reflexivity |]. split; [reflexivity |]. split; [| split].
    - exists u. split; [exact Hu |]. rewrite !(spread_get _ _ Hnd).
      rewrite Hhas. repeat split; try assumption.
    - intros k Hk. rewrite (spread_get _ _ Hnd), Hk. reflexivity.
    - intros k. rewrite spread_has. cbn [obj_has].
      destruct (obj_has k event), (String.eqb k profileIdHashColumn),
        (String.eqb k profileIdColumn); reflexivity. }
  destruct (waitInit env _); cbn [outcome commands logs].
  2:{ cbn [In]. intros [Hc | []]. discriminate. }
  destruct r as [o1 c1 s1 l1]; cbn [outcome commands logs created_after] in *.
  destruct (provisioning_not_insert c1 ltac:(assumption)) as [Hc1 _].
  destruct o1; cbn [outcome commands logs].
  2:{ cbn [In app]. intros [Hc | Hin]; [discriminate |].
      now apply not_inserted in Hin. }
  destruct r0 as [o2 c2 s2 l2]; cbn [outcome commands logs created_after] in *.
  destruct (provisioning_not_insert c2 ltac:(assumption)) as [Hc2 _].
  assert (Hpre : ~ In (InsertOne db coll doc)
                      (([WaitInit (singleton_key digest_hex ctx config)]
                        ++ c1) ++ c2)).
  { intros Hin. apply in_app_or in Hin. destruct Hin as [Hin | Hin];
      [| now apply not_inserted in Hin].
    cbn [app In] in Hin. destruct Hin as [Hc | Hin]; [discriminate |].
    now apply not_inserted in Hin. }
  destruct o2; cbn [outcome commands logs]; [| intros Hin; now apply Hpre in Hin].
  destruct (obj_get "userId" event) as [| | | | | u | | |] eqn:Hu;
    cbn [int32Hash_of];
    destruct (is_identify event);
    try destruct (findOneAndUpdate _ _ _ _ _ _ _);
    try destruct (insertOne _ _ _ _);
    cbn [outcome commands logs]; intros Hin;
    first [ now apply Hpre in Hin
          | apply in_app_or in Hin; destruct Hin as [Hin | Hin];
            [now apply Hpre in Hin |] ];
    cbn [In app] in Hin;
    repeat match goal with
      | H : _ \/ _ |- _ => destruct H
      | H : False |- _ => destruct H
      end; try discriminate; eauto.
Qed.

Lemma handle_upserts_only_identify
    (config : ProfilesConfig)
    (created : list string) (env : Env) (event : JsObject) (ctx : Context) :
  is_identify event = false ->
  forallb (fun c => negb (is_upsert c))
          (commands (handled config created env event ctx)) = true.
Proof.
  intros Htype. open_profiles. rewrite Htype.
  destruct (negb _); [reflexivity |].
  destruct (waitInit env _); cbn [outcome commands logs]; [| reflexivity].
  destruct r as [o1 c1 s1 l1]; cbn [outcome commands logs created_after] in *.
  destruct (provisioning_not_insert c1 ltac:(assumption)) as [_ Hc1].
  destruct r0 as [o2 c2 s2 l2]; cbn [outcome commands logs created_after] in *.
  destruct (provisioning_not_insert c2 ltac:(assumption)) as [_ Hc2].
  destruct o1; cbn [outcome commands logs];
    [| now rewrite forallb_app, Hc1].
  destruct o2; cbn [outcome commands logs];
    [| now rewrite !forallb_app, Hc1, Hc2].
  destruct (int32Hash_of digest_hex (obj_get "userId" event));
    [destruct (insertOne _ _ _ _) |];
    cbn [outcome commands logs]; rewrite !forallb_app, Hc1, Hc2; reflexivity.
Qed.

Lemma handle_throws_wrapped
    (config : ProfilesConfig)
    (created : list string) (env : Env) (event : JsObject) (ctx : Context)
    (e : Thrown) :
  outcome (handled config created env event ctx) = Throws e ->
  json_truthy (obj_get "userId" event) = true
  /\ exists cause,
       e = StoreError
             ("Error while sending event to MongoDB: " ++ describe cause).
Proof.
  unfold handle. cbv zeta.
  destruct (json_truthy (obj_get "userId" event)); cbn [negb outcome];
    [| discriminate].
  destruct (send _ _ _ _ _ _ _ _) as [o c s0 l]. cbn [outcome].
  destruct o as [x | cause]; cbn [outcome]; intros H; [discriminate |].
  inversion H. split; [reflexivity | now exists cause].
Qed.

Lemma handle_creation_failure
    (config : ProfilesConfig)
    (created : list string) (env : Env) (event : JsObject) (ctx : Context)
    (err : Thrown) :
  json_truthy (obj_get "userId" event) = true ->
  waitInit env (singleton_key digest_hex ctx config) = Normal tt ->
  set_has (eventsCollectionName config) created = false ->
  (forall doc,
      collStats (mongo env) (eventsDatabase config)
        (eventsCollectionName config) = Normal doc ->
      json_truthy doc = false) ->
  createCollection (mongo env) (eventsDatabase config)
    (eventsCollectionName config)
    (86400 * profileWindowDays config) = Throws err ->
  handled config created env event ctx
  = ran (Throws
           (StoreError
              ("Error while sending event to MongoDB: "
                 ++ describe
                      (StoreError
                         ("Failed to create collection "
                            ++ eventsCollectionName config ++ ": "
                            ++ describe err)))))
      [WaitInit (singleton_key digest_hex ctx config);
       CollStats (eventsDatabase config)
         (eventsCollectionName config);
       CreateCollection (eventsDatabase config)
         (eventsCollectionName config)
         (86400 * profileWindowDays config)]
      created [].
Proof.
  intros Huser Hwait Hhas Hstats Hcreate.
  unfold handle, send. cbv zeta. rewrite Huser, Hwait. cbn [negb].
  assert (Hensure :
            ensure created (mongo env) (eventsDatabase config)
              (eventsCollectionName config)
              (profileWindowDays config)
              [profileIdHashColumn; profileIdColumn; "type"%string] None
            = ran (Throws
                     (create_failure describe
                        (eventsCollectionName config) err))
                [CollStats (eventsDatabase config)
                   (eventsCollectionName config);
                 CreateCollection (eventsDatabase config)
                   (eventsCollectionName config)
                   (86400 * profileWindowDays config)]
                created []).
  { unfold pbEnsureMongoCollection.
    change (60 * 60 * 24 * profileWindowDays config)
      with (86400 * profileWindowDays config).
    rewrite Hhas, Hcreate.
    destruct (collStats _ _ _) as [doc | e0]; [| reflexivity].
    now rewrite (Hstats doc eq_refl). }
  rewrite Hensure. reflexivity.
Qed.

Lemma handle_provisions_once
    (config : ProfilesConfig)
    (created : list string) (env : Env) (event : JsObject) (ctx : Context) :
  json_truthy (obj_get "userId" event) = true ->
  outcome (handled config created env event ctx) = Normal tt ->
  forall env' event' ctx',
    forallb (fun c => negb (is_provisioning c))
            (commands
               (handled config
                  (created_after (handled config created env event ctx))
                  env' event' ctx')) = true.
Proof.
  intros Huser Hok env' event' ctx'.
  assert (Hknown :
            set_has (eventsCollectionName config)
              (created_after (handled config created env event ctx)) = true
            /\ set_has (traitsCollectionName config)
                 (created_after (handled config created env event ctx)) = true).
  { revert Hok. unfold handle, send. cbv zeta. rewrite Huser.
    cbn [negb].
    destruct (waitInit env _); cbn [outcome created_after]; [| discriminate].
    pose proof (ensure_shape created (mongo env) (eventsDatabase config)
                  (eventsCollectionName config)
                  (profileWindowDays config)
                  [profileIdHashColumn; profileIdColumn; "type"%string] None)
      as E1. cbv zeta in E1. destruct E1 as (_ & _ & E1).
    set (r1 := ensure created _ _ _ _ _ None) in *.
    pose proof (ensure_shape (created_after r1) (mongo env)
                  (eventsDatabase config)
                  (traitsCollectionName config)
                  (profileWindowDays config)
                  [profileIdColumn] (Some true)) as E2.
    cbv zeta in E2. destruct E2 as (_ & _ & E2).
    set (r2 := ensure (created_after r1) _ _ _ _ _ (Some true)) in *.
    destruct (outcome r1); cbn [outcome created_after]; [| discriminate].
    destruct (outcome r2); cbn [outcome created_after]; [| discriminate].
    assert (Hset : set_has (eventsCollectionName config)
                     (created_after r2) = true
                   /\ set_has (traitsCollectionName config)
                        (created_after r2) = true).
    { rewrite E2, E1. split; [| apply set_has_add].
      apply set_has_add_mono, set_has_add. }
    destruct (is_identify event);
      try destruct (findOneAndUpdate _ _ _ _ _ _ _);
      try destruct (int32Hash_of digest_hex (obj_get "userId" event));
      try destruct (insertOne _ _ _ _);
      cbn [outcome created_after]; intros H; try discriminate; exact Hset. }
  destruct Hknown as [Hevents Htraits].
  set (known := created_after (handled config created env event ctx)) in *.
  unfold handle, send. cbv zeta.
  destruct (negb _); [reflexivity |].
  destruct (waitInit env' _); cbn [outcome commands]; [| reflexivity].
  rewrite (ensure_known known _ _ _ _ _ _ Hevents).
  cbn [outcome commands created_after].
  rewrite (ensure_known known _ _ _ _ _ _ Htraits).
  cbn [outcome commands created_after app].
  destruct (is_identify event');
    try destruct (findOneAndUpdate _ _ _ _ _ _ _);
    try destruct (int32Hash_of digest_hex (obj_get "userId" event'));
    try destruct (insertOne _ _ _ _);
    reflexivity.
Qed.

Lemma profiles_parsed (config : ProfilesConfig)
    (created : list string) (env : Env) (event : JsObject) (ctx : Context) :
  ProfilesConfig_parse (props_or_empty ctx) = Normal config ->
  profiles created env event ctx = handled config created env event ctx.
Proof. intros H. unfold ProfilesFunction. now rewrite H. Qed.

Lemma profiles_unparsed (e : Thrown)
    (created : list string) (env : Env) (event : JsObject) (ctx : Context) :
  ProfilesConfig_parse (props_or_empty ctx) = Throws e ->
  profiles created env event ctx = ran (Throws e) [] created [].
Proof. intros H. unfold ProfilesFunction. now rewrite H. Qed.

(** X22. For an event without user (no [userId] property, or one that is
    null or the empty string) nothing is sent to the database and the
    set of created collections stays as it is. The call returns
    normally, having logged that it skips, when the properties fit the
    schema; when they do not, it throws what the parser threw. *)
Theorem profiles_skips_without_user
    (created : list string) (env : Env) (event : JsObject) (ctx : Context) :
  obj_has "userId" event = false
  \/ obj_get "userId" event = JNull
  \/ obj_get "userId" event = JStr "" ->
  profiles created env event ctx
  = match ProfilesConfig_parse (props_or_empty ctx) with
    | Normal _ => ran (Normal tt) [] created [LogNoUserId]
    | Throws e => ran (Throws e) [] created []
    end.
Proof.
  intros H. unfold ProfilesFunction, handle. cbv zeta.
  assert (Hfalsy : json_truthy (obj_get "userId" event) = false).
  { destruct H as [H | [H | H]].
    - now rewrite (obj_get_missing _ _ H).
    - now rewrite H.
    - now rewrite H. }
  now rewrite Hfalsy.
Qed.

(** X23. When the function returns normally for an event with a user,
    the properties were parsed into a configuration and what it sent
    is: the wait for the client, provisioning, for an [identify] event
    the one upsert of the traits with the event's [anonymousId] and
    [traits], and last the one insert of the event. An insert that the
    database does not acknowledge is logged as an error and is no
    failure of the call. *)
Theorem profiles_success_shape
    (created : list string) (env : Env) (event : JsObject) (ctx : Context) :
  json_truthy (obj_get "userId" event) = true ->
  outcome (profiles created env event ctx) = Normal tt ->
  exists config prov doc acknowledged before,
    ProfilesConfig_parse (props_or_empty ctx) = Normal config
    /\ commands (profiles created env event ctx)
       = WaitInit (singleton_key digest_hex ctx config)
         :: prov
         ++ (if is_identify event
             then [FindOneAndUpdate (eventsDatabase config)
                     (traitsCollectionName config)
                     (obj_get "userId" event) (obj_get "anonymousId" event)
                     (obj_get "traits" event) (today env)]
             else [])
         ++ [InsertOne (eventsDatabase config)
               (eventsCollectionName config) doc]
    /\ forallb is_provisioning prov = true
    /\ insertOne (mongo env) (eventsDatabase config)
         (eventsCollectionName config) doc = Normal acknowledged
    /\ logs (profiles created env event ctx)
       = before ++ [if acknowledged then LogInserted else LogInsertFailed].
Proof.
  intros Huser.
  destruct (ProfilesConfig_parse (props_or_empty ctx)) as [config | e]
    eqn:Hparse.
  - rewrite (profiles_parsed config _ _ _ _ Hparse). intros Hok.
    destruct (handle_success_shape config created env event ctx Huser Hok)
      as (prov & doc & ack & before & H).
    exists config, prov, doc, ack, before. split; [reflexivity | exact H].
  - rewrite (profiles_unparsed e _ _ _ _ Hparse). discriminate.
Qed.

(** X24. The document that is inserted is the event with two properties
    in front, the identifier of the profile and its hash; a property of
    the event with one of these two names replaces the computed one.
    The insert goes to the events collection of the configuration that
    was parsed. *)
Theorem profiles_inserted_document
    (created : list string) (env : Env) (event : JsObject) (ctx : Context)
    (db coll : string) (doc : JsObject) :
  NoDup (map fst event) ->
  In (InsertOne db coll doc) (commands (profiles created env event ctx)) ->
  (exists config,
      ProfilesConfig_parse (props_or_empty ctx) = Normal config
      /\ db = eventsDatabase config
      /\ coll = eventsCollectionName config)
  /\ (exists u,
        obj_get "userId" event = JStr u
        /\ obj_get "userId" doc = JStr u
        /\ obj_get profileIdColumn doc
           = (if obj_has profileIdColumn event
              then obj_get profileIdColumn event else JStr u)
        /\ obj_get profileIdHashColumn doc
           = (if obj_has profileIdHashColumn event
              then obj_get profileIdHashColumn event
              else match int32Hash digest_hex u with
                   | Some n => JNum n
                   | None => JNaN
                   end))
  /\ (forall k, obj_has k event = true -> obj_get k doc = obj_get k event)
  /\ (forall k,
        obj_has k doc
        = (obj_has k event || String.eqb k profileIdHashColumn
           || String.eqb k profileIdColumn)%bool).
Proof.
  intros Hnd.
  destruct (ProfilesConfig_parse (props_or_empty ctx)) as [config | e]
    eqn:Hparse.
  - rewrite (profiles_parsed config _ _ _ _ Hparse). intros Hin.
    destruct (handle_inserted_document config created env event ctx
                db coll doc Hnd Hin) as (Hdb & Hcoll & Hrest).
    split; [exists config; repeat split; assumption | exact Hrest].
  - rewrite (profiles_unparsed e _ _ _ _ Hparse). intros [].
Qed.

(** X25. Only an event whose [type] is [identify] touches the traits: for
    any other event no upsert is sent, however the call ends. *)
Theorem profiles_upserts_only_identify
    (created : list string) (env : Env) (event : JsObject) (ctx : Context) :
  is_identify event = false ->
  forallb (fun c => negb (is_upsert c))
          (commands (profiles created env event ctx)) = true.
Proof.
  intros Htype.
  destruct (ProfilesConfig_parse (props_or_empty ctx)) as [config | e]
    eqn:Hparse.
  - rewrite (profiles_parsed config _ _ _ _ Hparse).
    now apply handle_upserts_only_identify.
  - rewrite (profiles_unparsed e _ _ _ _ Hparse). reflexivity.
Qed.

(** X26. What the caller can be thrown: either what the parser of the
    properties threw, as it is, before anything was sent and whether or
    not the event has a user; or, for an event with a user only, a new
    [Error] whose message starts with the same words and ends with the
    text of the cause. *)
Theorem profiles_throws_wrapped
    (created : list string) (env : Env) (event : JsObject) (ctx : Context)
    (e : Thrown) :
  outcome (profiles created env event ctx) = Throws e ->
  (ProfilesConfig_parse (props_or_empty ctx) = Throws e
   /\ commands (profiles created env event ctx) = [])
  \/ ((exists config,
          ProfilesConfig_parse (props_or_empty ctx) = Normal config)
      /\ json_truthy (obj_get "userId" event) = true
      /\ exists cause,
           e = StoreError
                 ("Error while sending event to MongoDB: " ++ describe cause)).
Proof.
  destruct (ProfilesConfig_parse (props_or_empty ctx)) as [config | e0]
    eqn:Hparse.
  - rewrite (profiles_parsed config _ _ _ _ Hparse). intros Hthrow. right.
    destruct (handle_throws_wrapped config created env event ctx e Hthrow)
      as [Huser Hcause].
    split; [now exists config | split; assumption].
  - rewrite (profiles_unparsed e0 _ _ _ _ Hparse). cbn [outcome commands].
    intros H. inversion H; subst. now left.
Qed.

(** X27. A failure of the creation of the events collection reaches the
    caller wrapped twice, first by [pbEnsureMongoCollection], then by
    the function; nothing is sent after the failed creation, and the
    collection is not remembered as created. *)
Theorem profiles_creation_failure
    (created : list string) (env : Env) (event : JsObject) (ctx : Context)
    (config : ProfilesConfig) (err : Thrown) :
  ProfilesConfig_parse (props_or_empty ctx) = Normal config ->
  json_truthy (obj_get "userId" event) = true ->
  waitInit env (singleton_key digest_hex ctx config) = Normal tt ->
  set_has (eventsCollectionName config) created = false ->
  (forall doc,
      collStats (mongo env) (eventsDatabase config)
        (eventsCollectionName config) = Normal doc ->
      json_truthy doc = false) ->
  createCollection (mongo env) (eventsDatabase config)
    (eventsCollectionName config)
    (86400 * profileWindowDays config) = Throws err ->
  profiles created env event ctx
  = ran (Throws
           (StoreError
              ("Error while sending event to MongoDB: "
                 ++ describe
                      (StoreError
                         ("Failed to create collection "
                            ++ eventsCollectionName config ++ ": "
                            ++ describe err)))))
      [WaitInit (singleton_key digest_hex ctx config);
       CollStats (eventsDatabase config) (eventsCollectionName config);
       CreateCollection (eventsDatabase config) (eventsCollectionName config)
         (86400 * profileWindowDays config)]
      created [].
Proof.
  intros Hparse Huser Hwait Hhas Hstats Hcreate.
  rewrite (profiles_parsed config _ _ _ _ Hparse).
  now apply handle_creation_failure.
Qed.

(** X28. Provisioning happens once: after one event has gone through, no
    later event under the same properties asks the database about a
    collection, creates one or builds an index. *)
Theorem profiles_provisions_once
    (created : list string) (env : Env) (event : JsObject) (ctx : Context) :
  json_truthy (obj_get "userId" event) = true ->
  outcome (profiles created env event ctx) = Normal tt ->
  forall env' event' ctx',
    props ctx' = props ctx ->
    forallb (fun c => negb (is_provisioning c))
            (commands
               (profiles (created_after (profiles created env event ctx))
                  env' event' ctx')) = true.
Proof.
  intros Huser Hok env' event' ctx' Hprops.
  destruct (ProfilesConfig_parse (props_or_empty ctx)) as [config | e]
    eqn:Hparse.
  - assert (Hparse' : ProfilesConfig_parse (props_or_empty ctx')
                      = Normal config).
    { unfold props_or_empty in *. now rewrite Hprops. }
    rewrite (profiles_parsed config _ _ _ _ Hparse) in *.
    rewrite (profiles_parsed config _ _ _ _ Hparse').
    now apply handle_provisions_once.
  - rewrite (profiles_unparsed e _ _ _ _ Hparse) in Hok. discriminate.
Qed.

End ProfilesFacts.
(** ** More about the hashing helpers *)

(** X1. [int32Hash] is the number that the first eight hexadecimal digits
    of the digest spell, reduced modulo 2147483647; the rest of the
    digest plays no part. *)
Theorem int32Hash_reads_first_word
    (digest_hex : string -> string -> string) (value : string)
    (w : Z) (tail : string) :
  0 <= w < 4294967296 ->
  digest_hex "sha256"%string value = hex32 w tail ->
  int32Hash digest_hex value = Some (w mod 2147483647).
Proof.
  intros Hw Hdigest. unfold int32Hash, hash.
  rewrite Hdigest, substring_hex32, parseInt16_hex32 by exact Hw.
  cbn [js_rem]. change (idHash32MaxValue =? 0) with false. cbn iota.
  f_equal. apply Z.rem_mod_nonneg; [lia | reflexivity].
Qed.

Lemma int32Hash_reads_first_word_witness :
  int32Hash node_digest_hex "abc" = Some (0xba7816bf mod 2147483647).
Proof.
  apply (int32Hash_reads_first_word node_digest_hex "abc" 0xba7816bf
           "8f01cfea414140de5dae2223b00361a396177a9cb410ff61f20015ad").
  - lia.
  - vm_compute. reflexivity.
Defined.

(** ** Instances of the further facts *)

Lemma cold_success_outcome_witness :
  exists s1,
    step small_host interval_def createInMemoryStore
      (EvColdSettled (Fulfilled (Fresh (Some 50) (VNum 7)))
         (at_time 100 empty_disk)) = Some s1
    /\ settlement ColdPromise s1 = Resolved (VNum 7)
    /\ getCurrent s1 = VNum 7
    /\ status s1 = ok
    /\ lastRefresh s1 = Some 100
    /\ lastModified s1 = Some 50.
Proof.
  destruct (cold_success_outcome small_host interval_def createInMemoryStore
              (Some 50) (VNum 7) (at_time 100 empty_disk))
    as (s1 & H1 & H2 & H3 & H4 & H5 & H6 & _).
  - exists createInMemoryStore, []. split; [now left | reflexivity].
  - reflexivity.
  - intros e. vm_compute. discriminate.
  - exists s1. repeat split; assumption.
Defined.

Lemma first_not_modified_is_failure_witness :
  exists s2,
    run small_host interval_def createInMemoryStore
      [EvColdSettled (Fulfilled not_modified) (at_time 100 empty_disk);
       EvCatch (at_time 100 empty_disk)] = Some s2
    /\ status s2 = failed
    /\ getCurrent s2 = VUndefined.
Proof.
  destruct (first_not_modified_is_failure small_host interval_def
              createInMemoryStore (at_time 100 empty_disk)
              (at_time 100 empty_disk))
    as (s2 & H1 & H2 & H3 & _).
  - exists createInMemoryStore, []. split; [now left | reflexivity].
  - reflexivity.
  - vm_compute. reflexivity.
  - exists s2. repeat split; assumption.
Defined.

Lemma initializing_means_unloaded_witness :
  lastRefresh (createInMemoryStore_thrown connection_refused) = None
  /\ fetchCalls (createInMemoryStore_thrown connection_refused) = [None]
  /\ unscheduled (createInMemoryStore_thrown connection_refused)
  /\ (settlement ColdPromise (createInMemoryStore_thrown connection_refused)
      = Pending
      \/ (exists e,
            settlement ColdPromise
              (createInMemoryStore_thrown connection_refused)
            = Rejected_with e)
         /\ getCurrent (createInMemoryStore_thrown connection_refused)
            = VUndefined
         /\ coldLoad (createInMemoryStore_thrown connection_refused)
            = ColdDone)
  /\ (get (createInMemoryStore_thrown connection_refused) = ColdPromise
      \/ exists e,
           coldLoad (createInMemoryStore_thrown connection_refused)
           = CatchQueued e).
Proof.
  apply (initializing_means_unloaded small_host interval_def
           (createInMemoryStore_thrown connection_refused)).
  - exists (createInMemoryStore_thrown connection_refused), [].
    split; [right; now exists connection_refused | reflexivity].
  - reflexivity.
Defined.

Lemma refresh_rejected_keeps_value_witness :
  exists s',
    step small_host interval_def refreshing_store
      (EvRefreshSettled (Rejected connection_refused) (at_time 1100 empty_disk))
    = Some s'
    /\ status s' = outdated
    /\ getCurrent s' = getCurrent refreshing_store
    /\ lastRefresh s' = lastRefresh refreshing_store
    /\ lastModified s' = lastModified refreshing_store
    /\ settlement (get s') s' = settlement (get refreshing_store) refreshing_store
    /\ fetchCalls s' = fetchCalls refreshing_store.
Proof.
  apply (refresh_rejected_keeps_value small_host interval_def refreshing_store
           connection_refused (at_time 1100 empty_disk)).
  vm_compute. discriminate.
Defined.

Lemma refresh_fresh_replaces_witness :
  exists s',
    step small_host interval_def refreshing_store
      (EvRefreshSettled (Fulfilled (Fresh None (VBool true)))
         (at_time 1100 empty_disk)) = Some s'
    /\ getCurrent s' = VBool true
    /\ status s' = ok
    /\ lastRefresh s' = Some 1100
    /\ lastModified s' = Some 50.
Proof.
  destruct (refresh_fresh_replaces small_host interval_def refreshing_store
              None (VBool true) (at_time 1100 empty_disk))
    as (s' & H1 & H2 & H3 & H4 & H5 & _).
  - vm_compute. discriminate.
  - intros e. vm_compute. discriminate.
  - exists s'. repeat split; assumption.
Defined.

Lemma marker_is_passed_on_witness :
  exists s2,
    run small_host interval_def refreshing_store
      [EvRefreshSettled (Fulfilled (Fresh (Some 60) (VBool true)))
         (at_time 1100 empty_disk);
       EvIntervalTick] = Some s2
    /\ fetchCalls s2 = [None; Some 50; Some 60]
    /\ lastModified s2 = Some 60.
Proof.
  apply (marker_is_passed_on small_host interval_def refreshing_store 60
           (VBool true) (at_time 1100 empty_disk)).
  - vm_compute. discriminate.
  - reflexivity.
  - reflexivity.
  - intros e. vm_compute. discriminate.
Defined.

Lemma interval_ticks_overlap_witness :
  exists s',
    run small_host interval_def started_store
      [EvIntervalTick; EvIntervalTick; EvIntervalTick] = Some s'
    /\ inflight s' = 3%nat
    /\ fetchCalls s' = [None; Some 50; Some 50; Some 50]
    /\ getCurrent s' = VNum 7 /\ status s' = ok.
Proof.
  apply (interval_ticks_overlap small_host interval_def 3 started_store).
  - reflexivity.
  - reflexivity.
Defined.

Lemma last_settlement_wins_witness :
  exists s2,
    run small_host interval_def overlapping_store
      [EvRefreshSettled (Fulfilled (Fresh (Some 60) (VBool true)))
         (at_time 1100 empty_disk);
       EvRefreshSettled (Fulfilled (Fresh None (VNum 0)))
         (at_time 1200 empty_disk)] = Some s2
    /\ getCurrent s2 = VNum 0
    /\ lastRefresh s2 = Some 1200
    /\ status s2 = ok
    /\ lastModified s2 = Some 60.
Proof.
  apply (last_settlement_wins small_host interval_def overlapping_store
           (Some 60) None (VBool true) (VNum 0)
           (at_time 1100 empty_disk) (at_time 1200 empty_disk)).
  - vm_compute. lia.
  - intros e. vm_compute. discriminate.
  - intros e. vm_compute. discriminate.
Defined.

Lemma scheduling_modes_witness :
  (interval_mode interval_def = true -> timeoutArmed started_store = false)
  /\ (interval_mode interval_def = false ->
      intervalRunning started_store = false
      /\ (inflight started_store
          + (if timeoutArmed started_store then 1 else 0) <= 1)%nat).
Proof.
  apply (scheduling_modes small_host interval_def started_store).
  exists createInMemoryStore, cold_success. split; [now left | vm_compute; reflexivity].
Defined.

Lemma stopped_before_loaded_never_refreshes_witness :
  run small_host interval_def (stop createInMemoryStore)
    (cold_success ++ [EvIntervalTick; EvGet])
  = Some (set_intervalRunning true
            (set_intervalToClear true
               (set_stopping true started_store)))
  /\ fetchCalls (set_intervalRunning true
                   (set_intervalToClear true
                      (set_stopping true started_store))) = [None].
Proof.
  split; [vm_compute; reflexivity |].
  apply (stopped_before_loaded_never_refreshes small_host interval_def
           (stop createInMemoryStore) (cold_success ++ [EvIntervalTick; EvGet])
           (set_intervalRunning true
              (set_intervalToClear true (set_stopping true started_store)))).
  - exists createInMemoryStore, [EvStop]. split; [now left | vm_compute; reflexivity].
  - vm_compute. discriminate.
  - reflexivity.
  - vm_compute. reflexivity.
Defined.

Lemma get_keeps_resolving_witness :
  exists v',
    settlement (get (set_inflight 0 (set_instance (VNum 0) refreshing_store)))
      (set_inflight 0 (set_instance (VNum 0) refreshing_store)) = Resolved v'.
Proof.
  apply (get_keeps_resolving small_host interval_def started_store
           [EvIntervalTick;
            EvRefreshSettled (Fulfilled (Fresh None (VNum 0)))
              (at_time 100 empty_disk)]
           (set_inflight 0 (set_instance (VNum 0) refreshing_store))).
  - exists createInMemoryStore, cold_success. split; [now left | vm_compute; reflexivity].
  - exists (VNum 7). reflexivity.
  - vm_compute. reflexivity.
Defined.

Lemma cache_round_trip_witness :
  serialize small_host interval_def (VNum 7) = Normal "7"%string
  /\ loadFromCache small_host interval_def (snapshot_disk "7" 40)
     = Some {| updateDate := 40; cached_instance := VNum 7 |}.
Proof.
  apply (cache_round_trip small_host interval_def empty_disk
           (snapshot_disk "7" 40) (VNum 7) (VNum 7)
           "/var/cache/profiles-latest.json" "7" 40).
  - vm_compute. reflexivity.
  - reflexivity.
  - reflexivity.
  - vm_compute. reflexivity.
Defined.

Lemma no_cache_directory_witness :
  (forall d inst, saveLocalCache small_host uncached_def d inst = Normal None)
  /\ (forall d, loadFromCache small_host uncached_def d = None)
  /\ exists s2,
       run small_host uncached_def createInMemoryStore
         [EvColdSettled (Rejected connection_refused)
            (at_time 100 (snapshot_disk "7" 40));
          EvCatch (at_time 100 (snapshot_disk "7" 40))] = Some s2
       /\ status s2 = failed.
Proof.
  apply (no_cache_directory small_host uncached_def createInMemoryStore
           connection_refused (at_time 100 (snapshot_disk "7" 40))
           (at_time 100 (snapshot_disk "7" 40))).
  - right. reflexivity.
  - exists createInMemoryStore, []. split; [now left | reflexivity].
  - reflexivity.
Defined.

Lemma index_of_fields_witness :
  index_of ["_profile_id_hash"%string; "_profile_id"%string; "type"%string]
  = [("_profile_id_hash"%string, JNum 1); ("_profile_id"%string, JNum 1);
     ("type"%string, JNum 1)]
  /\ obj_get "__proto__"
       (index_of ["b"%string; "10"%string; "__proto__"%string; "2"%string])
     = JUndefined.
Proof.
  split.
  - apply (proj2 (proj2 (proj2
             (index_of_fields
                ["_profile_id_hash"%string; "_profile_id"%string;
                 "type"%string])))).
    + repeat constructor; simpl; intuition discriminate.
    + reflexivity.
  - exact (proj1 (index_of_fields
                    ["b"%string; "10"%string; "__proto__"%string; "2"%string])
             "__proto__"%string).
Defined.

Lemma ensure_runs_once_witness :
  pbEnsureMongoCollection describe_error
    (created_after
       (pbEnsureMongoCollection describe_error [] (empty_mongo true)
          "profiles" "profiles-raw" 365 ["type"%string] None))
    refusing_mongo "another-database" "profiles-raw" 7
    ["userId"%string] (Some true)
  = ran (Normal tt) []
      (created_after
         (pbEnsureMongoCollection describe_error [] (empty_mongo true)
            "profiles" "profiles-raw" 365 ["type"%string] None)) [].
Proof.
  apply (ensure_runs_once describe_error [] (empty_mongo true)
           "profiles" "profiles-raw" 365 ["type"%string] None).
  vm_compute. reflexivity.
Defined.

Lemma ensure_failure_witness :
  created_after
    (pbEnsureMongoCollection describe_error [] refusing_mongo
       "profiles" "profiles-raw" 365 ["type"%string] None) = []
  /\ set_has "profiles-raw" [] = false.
Proof.
  destruct (ensure_failure describe_error [] refusing_mongo
              "profiles" "profiles-raw" 365 ["type"%string] None
              (StoreError
                 "Failed to create collection profiles-raw: Error: not authorized"))
    as (H1 & H2 & _).
  - vm_compute. reflexivity.
  - split; assumption.
Defined.

Lemma ensure_existing_witness :
  pbEnsureMongoCollection describe_error [] provisioned_mongo
    "profiles" "profiles-raw" 365 ["type"%string] None
  = ran (Normal tt) [CollStats "profiles" "profiles-raw"]
      ([] ++ ["profiles-raw"%string]) [].
Proof.
  apply (ensure_existing describe_error [] provisioned_mongo
           "profiles" "profiles-raw" 365 ["type"%string] None
           (JObj [("count"%string, JNum 3)])).
  - reflexivity.
  - reflexivity.
  - reflexivity.
Defined.

Lemma ensure_missing_witness :
  pbEnsureMongoCollection describe_error [] (empty_mongo true)
    "profiles" "profiles-traits" 365 ["_profile_id"%string] (Some true)
  = ran (Normal tt)
      ([CollStats "profiles" "profiles-traits";
        CreateCollection "profiles" "profiles-traits" (86400 * 365)]
       ++ [CreateIndex "profiles" "profiles-traits"
             (index_of ["_profile_id"%string]) true])
      ([] ++ ["profiles-traits"%string]) [].
Proof.
  apply (ensure_missing describe_error [] (empty_mongo true)
           "profiles" "profiles-traits" 365 ["_profile_id"%string] (Some true)).
  - reflexivity.
  - intros doc H. vm_compute in H. discriminate.
  - reflexivity.
  - reflexivity.
Defined.

Lemma profiles_skips_without_user_witness :
  ProfilesFunction node_digest_hex describe_error [] (env_of (empty_mongo true))
    anonymous_event default_ctx
  = ran (Normal tt) [] [] [LogNoUserId]
  /\ ProfilesFunction node_digest_hex describe_error []
       (env_of (empty_mongo true)) anonymous_event ill_typed_ctx
     = ran (Throws zod_error) [] [] [].
Proof.
  split.
  - exact (profiles_skips_without_user node_digest_hex describe_error []
             (env_of (empty_mongo true)) anonymous_event default_ctx
             (or_introl eq_refl)).
  - exact (profiles_skips_without_user node_digest_hex describe_error []
             (env_of (empty_mongo true)) anonymous_event ill_typed_ctx
             (or_introl eq_refl)).
Defined.

Lemma profiles_success_shape_witness :
  exists prov doc before,
    commands
      (ProfilesFunction node_digest_hex describe_error []
         (env_of (empty_mongo false)) identify_event default_ctx)
    = WaitInit None
      :: prov
      ++ [FindOneAndUpdate "profiles" "profiles-traits" (JStr "u1")
            (JStr "a1") (JObj [("plan"%string, JStr "pro")]) 1000]
      ++ [InsertOne "profiles" "profiles-raw" doc]
    /\ logs
         (ProfilesFunction node_digest_hex describe_error []
            (env_of (empty_mongo false)) identify_event default_ctx)
       = before ++ [LogInsertFailed].
Proof.
  destruct (profiles_success_shape node_digest_hex describe_error []
              (env_of (empty_mongo false)) identify_event default_ctx)
    as (config & prov & doc & ack & before & Hparse & H1 & _ & H3 & H4).
  - reflexivity.
  - vm_compute. reflexivity.
  - assert (Hconfig : config = default_config).
    { change (Normal default_config = Normal config) in Hparse.
      now inversion Hparse. }
    subst config.
    exists prov, doc, before. split; [exact H1 |].
    cbn in H3. inversion H3; subst ack. exact H4.
Defined.

Lemma profiles_inserted_document_witness :
  obj_get "userId"
    (spread [(profileIdHashColumn, hash_of_u1); (profileIdColumn, JStr "u1")]
       overriding_event) = JStr "u1"
  /\ obj_get profileIdColumn
       (spread [(profileIdHashColumn, hash_of_u1); (profileIdColumn, JStr "u1")]
          overriding_event) = JStr "someone-else".
Proof.
  destruct (profiles_inserted_document node_digest_hex describe_error []
              (env_of (empty_mongo true)) overriding_event default_ctx
              "profiles" "profiles-raw"
              (spread [(profileIdHashColumn, hash_of_u1);
                       (profileIdColumn, JStr "u1")] overriding_event))
    as (_ & (u & Hu & Hdoc & Hid & _) & _).
  - vm_compute. repeat constructor; intros H; vm_compute in H; intuition discriminate.
  - vm_compute. auto 10.
  - vm_compute in Hu. inversion Hu; subst u. split; [exact Hdoc | exact Hid].
Defined.

Lemma profiles_upserts_only_identify_witness :
  forallb (fun c => negb (is_upsert c))
    (commands
       (ProfilesFunction node_digest_hex describe_error []
          (env_of (empty_mongo true)) track_event default_ctx)) = true.
Proof.
  apply (profiles_upserts_only_identify node_digest_hex describe_error []
           (env_of (empty_mongo true)) track_event default_ctx).
  reflexivity.
Defined.

Lemma profiles_throws_wrapped_witness :
  (ProfilesConfig_parse (props_or_empty ill_typed_ctx) = Throws zod_error
   /\ commands
        (ProfilesFunction node_digest_hex describe_error []
           (env_of (empty_mongo true)) identify_event ill_typed_ctx) = [])
  /\ json_truthy (obj_get "userId" track_event) = true
  /\ exists cause,
       StoreError
         "Error while sending event to MongoDB: Error: Failed to create collection profiles-raw: Error: not authorized"
       = StoreError
           ("Error while sending event to MongoDB: " ++ describe_error cause).
Proof.
  split.
  - destruct (profiles_throws_wrapped node_digest_hex describe_error []
                (env_of (empty_mongo true)) identify_event ill_typed_ctx
                zod_error)
      as [H | ((config & H) & _)].
    + vm_compute. reflexivity.
    + exact H.
    + vm_compute in H. discriminate.
  - destruct (profiles_throws_wrapped node_digest_hex describe_error []
                (env_of refusing_mongo) track_event default_ctx
                (StoreError
                   "Error while sending event to MongoDB: Error: Failed to create collection profiles-raw: Error: not authorized"))
      as [(H & _) | (_ & H)].
    + vm_compute. reflexivity.
    + vm_compute in H. discriminate.
    + exact H.
Defined.

Lemma profiles_creation_failure_witness :
  ProfilesFunction node_digest_hex describe_error [] (env_of refusing_mongo)
    track_event default_ctx
  = ran (Throws
           (StoreError
              ("Error while sending event to MongoDB: "
                 ++ describe_error
                      (StoreError
                         ("Failed to create collection "
                            ++ "profiles-raw" ++ ": "
                            ++ describe_error (External "not authorized"))))))
      [WaitInit None;
       CollStats "profiles" "profiles-raw";
       CreateCollection "profiles" "profiles-raw" (86400 * 365)]
      [] [].
Proof.
  apply (profiles_creation_failure node_digest_hex describe_error []
           (env_of refusing_mongo) track_event default_ctx default_config
           (External "not authorized")).
  - reflexivity.
  - reflexivity.
  - reflexivity.
  - reflexivity.
  - intros doc H. vm_compute in H. inversion H. reflexivity.
  - reflexivity.
Defined.

Lemma profiles_provisions_once_witness :
  forallb (fun c => negb (is_provisioning c))
    (commands
       (ProfilesFunction node_digest_hex describe_error
          (created_after
             (ProfilesFunction node_digest_hex describe_error []
                (env_of (empty_mongo true)) identify_event default_ctx))
          (env_of refusing_mongo) track_event default_ctx)) = true.
Proof.
  apply (profiles_provisions_once node_digest_hex describe_error []
           (env_of (empty_mongo true)) identify_event default_ctx).
  - reflexivity.
  - vm_compute. reflexivity.
  - reflexivity.
Defined.
